(** * Order-book liquidity analytics of polymarket-radar

    A shallow embedding of [02_lakehouse/bronze_to_silver_gold.py]: the level
    parser, best bid/ask, midpoint, spread, depth in band, the greedy
    execution-cost walk, the score and the per-record loop of [main], and
    the lookup of the latest snapshot; and of the pure parts of
    [01_ingestion/polymarket_snapshot.py] and [polymarket_snapshot_once.py]:
    the batches of tokens, the markets kept, and the requests for order
    books against an abstract service.

    Python's [float] is kept abstract behind the class [Number]; the code is
    written once over it and run at two instances: IEEE binary64 (Rocq's
    primitive floats, which is what CPython computes with) and the exact
    rationals [Qc] (no rounding, no infinities, no NaN).  Statements about
    the program are proved for every instance, binary64 included, from the
    control flow and from the laws of the comparisons, which both
    instances obey; where the order of a sort matters they ask for keys
    that are not NaN.  Only the budget bound says, beside what holds in
    binary64, what exact arithmetic would add. *)

From stdpp Require Import gmap strings list pretty sorting.
From Stdlib Require Import ZArith QArith Qcanon Floats Sorted Lia.

Set Warnings "-register-all".

(* ================================================================== *)
(** * Numbers *)

(** The operations the source performs on floats.  [of_Z] is the value of an
    integer literal ([0], [10], [2.0], [1000.0], ...); the three remaining
    constants are the decimal literals [1e-9], [1e-12] and [0.01]. *)
Class Number (F : Type) : Type := {
  of_Z : Z → F;
  fadd : F → F → F;
  fsub : F → F → F;
  fmul : F → F → F;
  fdiv : F → F → F;
  fle : F → F → bool;
  flt : F → F → bool;
  c_1e_9 : F;
  c_1e_12 : F;
  c_0_01 : F
}.

Infix "+!" := fadd (at level 50, left associativity).
Infix "-!" := fsub (at level 50, left associativity).
Infix "*!" := fmul (at level 40, left associativity).
Infix "/!" := fdiv (at level 40, left associativity).
Infix "<=!" := fle (at level 65, no associativity).
Infix "<!" := flt (at level 65, no associativity).

(** [x == 0.0]: true of both zeros, false of NaN. *)
Definition is_zero {F} `{Number F} (x : F) : bool :=
  (x <=! of_Z 0) && (of_Z 0 <=! x).

(** What the proofs about control flow need from the order: [<] is
    asymmetric and excludes the converse [<=], and whatever is [<= 0] is
    [<= 1e-12]. *)
Class NumberLaws (F : Type) `{Number F} : Prop := {
  flt_asym : ∀ x y : F, x <! y = true → y <! x = false;
  flt_not_fle : ∀ x y : F, x <! y = true → y <=! x = false;
  fle_zero_eps : ∀ x : F, x <=! of_Z 0 = true → x <=! c_1e_12 = true;
  zero_le_eps : of_Z 0 <=! c_1e_12 = true
}.

(** [x] is a number: it is [<=] itself, which NaN is not. *)
Definition is_number {F} `{Number F} (x : F) : bool := x <=! x.

(** [x] and [y] compare equal: [x <= y <= x], as [0.0] and [-0.0] do. *)
Definition same_rank {F} `{Number F} (x y : F) : bool :=
  (x <=! y) && (y <=! x).

(** What the proofs about sorting and extremes need from the order: [<] is
    transitive on all values, and on numbers [<] and [<=] are the two
    faces of one total preorder. *)
Class OrderLaws (F : Type) `{Number F} : Prop := {
  flt_trans : ∀ x y z : F, x <! y = true → y <! z = true → x <! z = true;
  fle_trans : ∀ x y z : F, x <=! y = true → y <=! z = true → x <=! z = true;
  flt_fle : ∀ x y : F, x <! y = true → x <=! y = true;
  flt_fle_trans :
    ∀ x y z : F, x <! y = true → y <=! z = true → x <! z = true;
  fle_flt_trans :
    ∀ x y z : F, x <=! y = true → y <! z = true → x <! z = true;
  fle_total :
    ∀ x y : F, is_number x = true → is_number y = true →
               x <! y = false → y <=! x = true;
  fle_is_number :
    ∀ x y : F, x <=! y = true → is_number x = true ∧ is_number y = true
}.

(** ** IEEE binary64 *)

(** The place of a float in the order of the comparisons: none for NaN,
    otherwise the sign class, then exponent and mantissa, negated below
    zero. *)
Definition SFrank (x : spec_float) : option (Z * Z * Z) :=
  match x with
  | S754_nan => None
  | S754_infinity s => Some (if s then (-2)%Z else 2%Z, 0%Z, 0%Z)
  | S754_zero _ => Some (0%Z, 0%Z, 0%Z)
  | S754_finite s m e =>
      Some (if s then ((-1)%Z, (- e)%Z, Z.neg m) else (1%Z, e, Z.pos m))
  end.

(** Triples in dictionary order. *)
Definition lex_lt (a b : Z * Z * Z) : Prop :=
  (a.1.1 < b.1.1 ∨ a.1.1 = b.1.1
   ∧ (a.1.2 < b.1.2 ∨ a.1.2 = b.1.2 ∧ a.2 < b.2))%Z.

(** An integer rounded to the nearest binary64 value, ties to even. *)
Definition float_of_Z (z : Z) : float :=
  SF2Prim (binary_normalize prec emax z 0 false).

#[export] Instance float_Number : Number float := {
  of_Z := float_of_Z;
  fadd := PrimFloat.add;
  fsub := PrimFloat.sub;
  fmul := PrimFloat.mul;
  fdiv := PrimFloat.div;
  fle := PrimFloat.leb;
  flt := PrimFloat.ltb;
  c_1e_9 := 0x1.12e0be826d695p-30%float;
  c_1e_12 := 0x1.19799812dea11p-40%float;
  c_0_01 := 0x1.47ae147ae147bp-7%float
}.

(** ** Exact rationals *)

#[export] Instance Qc_Number : Number Qc := {
  of_Z z := Q2Qc (inject_Z z);
  fadd := Qcplus;
  fsub := Qcminus;
  fmul := Qcmult;
  fdiv := Qcdiv;
  fle x y := Qle_bool x y;
  flt x y := negb (Qle_bool y x);
  c_1e_9 := Q2Qc (1 # 1000000000);
  c_1e_12 := Q2Qc (1 # 1000000000000);
  c_0_01 := Q2Qc (1 # 100)
}.

(* ================================================================== *)
(** * Raw input and the runtime *)

(** A value as [json.loads] builds it.  A mapping keeps one binding per
    key. *)
Inductive json {F : Type} : Type :=
  | JNull
  | JBool (b : bool)
  | JInt (n : Z)
  | JFloat (x : F)
  | JStr (s : string)
  | JList (l : list json)
  | JDict (m : gmap string json).
Arguments json : clear implicits.

Inductive exn : Type :=
  | AttributeError | TypeError | KeyError | ValueError | OverflowError
  | ZeroDivisionError.

(** The outcome of an expression that may raise. *)
Inductive result (A : Type) : Type :=
  | Ok (a : A)
  | Raise (e : exn).
Arguments Ok {A} a.
Arguments Raise {A} e.

#[export] Instance result_ret : MRet result := @Ok.
#[export] Instance result_bind : MBind result := λ A B f m,
  match m with Ok a => f a | Raise e => Raise e end.

(** The builtins the source calls and this development does not look into:
    [str] on a JSON value, [float] on a string ([None]: ValueError) and
    [float] on an integer ([None]: OverflowError). *)
Class Runtime (F : Type) : Type := {
  py_str : json F → string;
  float_of_str : string → option F;
  float_of_int : Z → option F
}.

Section Analytics.
Context {F : Type} `{Number F} `{Runtime F}.

(** ** Config *)
Definition TOP_LEVELS_PER_SIDE : nat := 20.
Definition DEPTH_BAND : F := c_0_01.
Definition BUDGETS : list F := [of_Z 10; of_Z 50; of_Z 200].

Record Level : Type := mkLevel { price : F; size : F }.

(** ** Python's data model on JSON values *)

(** Truth value of [v], as [or] and [if] test it. *)
Definition truthy (v : json F) : bool :=
  match v with
  | JNull => false
  | JBool b => b
  | JInt n => negb (n =? 0)%Z
  | JFloat x => negb (is_zero x)
  | JStr s => match s with EmptyString => false | String _ _ => true end
  | JList l => match l with [] => false | _ :: _ => true end
  | JDict m => match map_to_list m with [] => false | _ :: _ => true end
  end.

(** [a or b] with both operands already evaluated. *)
Definition py_or (a b : json F) : json F := if truthy a then a else b.

(** [ob.get(k, default)]: only a mapping has the method. *)
Definition dict_get (ob : json F) (k : string) (dflt : json F)
  : result (json F) :=
  match ob with
  | JDict m => Ok (default dflt (m !! k))
  | _ => Raise AttributeError
  end.

(** [x[k]] for a string key [k]. *)
Definition getitem (x : json F) (k : string) : result (json F) :=
  match x with
  | JDict m => match m !! k with Some v => Ok v | None => Raise KeyError end
  | _ => Raise TypeError
  end.

(** The items a [for] loop draws from [v]: the elements of a list, the
    characters of a string, the keys of a mapping (here in the order of the
    map, not of insertion); anything else is not iterable. *)
Definition py_iter (v : json F) : result (list (json F)) :=
  match v with
  | JList l => Ok l
  | JStr s =>
      Ok ((λ c, JStr (String c EmptyString)) <$> String.list_ascii_of_string s)
  | JDict m => Ok (JStr <$> (map_to_list m).*1)
  | _ => Raise TypeError
  end.

(** [float(v)]. *)
Definition py_float (v : json F) : result F :=
  match v with
  | JNull => Raise TypeError
  | JBool b => Ok (of_Z (if b then 1 else 0))
  | JInt n =>
      match float_of_int n with Some x => Ok x | None => Raise OverflowError end
  | JFloat x => Ok x
  | JStr s =>
      match float_of_str s with Some x => Ok x | None => Raise ValueError end
  | JList _ | JDict _ => Raise TypeError
  end.

(** [x / y] on floats. *)
Definition py_div (x y : F) : result F :=
  if is_zero y then Raise ZeroDivisionError else Ok (x /! y).

(** [sum(xs)]: the items added left to right onto the integer [0].
    CPython from 3.12 on compensates the rounding error of a float sum;
    that changes the last bits in binary64 and nothing at [Qc]. *)
Definition py_sum (xs : list F) : F := fold_left fadd xs (of_Z 0).

(** [max(xs, default=None)]: a later item replaces the running maximum when
    it compares greater. *)
Definition py_max (xs : list F) : option F :=
  match xs with
  | [] => None
  | x :: t => Some (fold_left (λ m y, if m <! y then y else m) t x)
  end.

(** [min(xs, default=None)]. *)
Definition py_min (xs : list F) : option F :=
  match xs with
  | [] => None
  | x :: t => Some (fold_left (λ m y, if y <! m then y else m) t x)
  end.

(** [sorted(l, key=key)]: stable, comparing keys with [<] only.  On keys
    that [<] orders totally (no NaN among them) any stable sort returns
    this list, CPython's included; with a NaN among the keys CPython's
    order can be another one, so every statement below that depends on the
    order asks for keys that are numbers. *)
Fixpoint insert_by {A : Type} (key : A → F) (x : A) (l : list A) : list A :=
  match l with
  | [] => [x]
  | y :: t => if key y <! key x then y :: insert_by key x t else x :: y :: t
  end.

Definition sorted {A : Type} (key : A → F) (l : list A) : list A :=
  foldr (insert_by key) [] l.

(** [sorted(l, key=key, reverse=True)]: equal keys keep their input order. *)
Definition sorted_reverse {A : Type} (key : A → F) (l : list A) : list A :=
  rev (sorted key (rev l)).

(** ** parse_levels *)

(** The body of the [try]:
    [Level(price=float(x["price"]), size=float(x["size"]))]. *)
Definition make_level (x : json F) : result Level :=
  p ← getitem x "price" ≫= py_float;
  s ← getitem x "size" ≫= py_float;
  mret (mkLevel p s).

(** The loop, with [out] the list built so far: an item whose [try] raises
    is passed over. *)
Fixpoint parse_loop (xs : list (json F)) (out : list Level) : list Level :=
  match xs with
  | [] => out
  | x :: t =>
      match make_level x with
      | Ok lvl => parse_loop t (out ++ [lvl])
      | Raise _ => parse_loop t out
      end
  end.

Definition parse_levels (side_levels : json F) : result (list Level) :=
  xs ← py_iter (py_or side_levels (JList []));
  mret (parse_loop xs []).

(** ** best_bid_ask, midpoint, spread, calc_depth *)

Definition best_bid_ask (bids asks : list Level) : option F * option F :=
  (py_max (price <$> bids), py_min (price <$> asks)).

Definition midpoint (best_bid best_ask : option F) : option F :=
  match best_bid, best_ask with
  | None, None => None
  | None, Some ba => Some ba
  | Some bb, None => Some bb
  | Some bb, Some ba => Some ((bb +! ba) /! of_Z 2)
  end.

(** The expression of [main] for the spread. *)
Definition calc_spread (bb ba : option F) : option F :=
  match bb, ba with
  | Some b, Some a => Some (a -! b)
  | _, _ => None
  end.

(** [sum(l.size for l in ls if keep l)]. *)
Definition sum_sizes_if (keep : Level → bool) (ls : list Level) : F :=
  fold_left (λ acc l, if keep l then acc +! size l else acc) ls (of_Z 0).

Definition calc_depth (bids asks : list Level) (mid : option F) (band : F)
  : option F :=
  match mid with
  | None => None
  | Some m =>
      let lo := m -! band in
      let hi := m +! band in
      let bid_depth := sum_sizes_if (λ l, lo <=! price l) bids in
      let ask_depth := sum_sizes_if (λ l, price l <=! hi) asks in
      Some (bid_depth +! ask_depth)
  end.

(** ** buy_avg_fill_price *)

(** The [for] loop over [asks_sorted], from the state [(remaining,
    total_cost, total_shares)] to the totals it leaves behind. *)
Fixpoint walk (ls : list Level) (remaining total_cost total_shares : F)
  : result (F * F) :=
  match ls with
  | [] => mret (total_cost, total_shares)
  | lvl :: t =>
      if price lvl <=! of_Z 0 then walk t remaining total_cost total_shares
      else
        let lvl_cost_full := price lvl *! size lvl in
        if lvl_cost_full <=! remaining then
          let total_cost' := total_cost +! lvl_cost_full in
          let total_shares' := total_shares +! size lvl in
          let remaining' := remaining -! lvl_cost_full in
          if remaining' <=! c_1e_9 then mret (total_cost', total_shares')
          else walk t remaining' total_cost' total_shares'
        else
          partial_shares ← py_div remaining (price lvl);
          mret (total_cost +! remaining, total_shares +! partial_shares)
  end.

(** The test [budget <= 0 or not asks]. *)
Definition no_walk {A : Type} (asks : list A) (budget : F) : bool :=
  (budget <=! of_Z 0) || match asks with [] => true | _ => false end.

Definition buy_avg_fill_price (asks : list Level) (budget : F)
  : result (option F) :=
  if no_walk asks budget then mret None
  else
    '(total_cost, total_shares) ←
      walk (sorted price asks) budget (of_Z 0) (of_Z 0);
    if total_shares <=! c_1e_12 then mret None
    else q ← py_div total_cost total_shares; mret (Some q).

(** ** The loop of [main] *)

Inductive Side : Type := bid | ask.

(** A row of the Silver file: snapshot_ts, token_id, side, level, price,
    size. *)
Record LevelExportRow : Type := mkRow {
  row_snapshot_ts : string;
  row_token_id : string;
  row_side : Side;
  row_level : nat;
  row_price : F;
  row_size : F
}.

(** An entry of [gold_rows]. *)
Record MetricsRecord : Type := mkMetrics {
  snapshot_ts : string;
  token_id : string;
  best_bid : option F;
  best_ask : option F;
  mid : option F;
  spread : option F;
  depth_1pt : option F;
  slippage_buy_10 : option F;
  slippage_buy_50 : option F;
  slippage_buy_200 : option F;
  score : option F
}.

(** [None if (avg is None or baseline is None) else (avg - baseline)]. *)
Definition slippage (avg baseline : option F) : option F :=
  match avg, baseline with
  | Some a, Some b => Some (a -! b)
  | _, _ => None
  end.

(** The score of [main]: set only under [depth is not None and spread is
    not None and sl50 is not None]. *)
Definition calc_score (depth spread sl50 : option F) : option F :=
  match depth, spread, sl50 with
  | Some d, Some s, Some sl =>
      Some (d /! of_Z 1000 -! s *! of_Z 3 -! sl *! of_Z 4)
  | _, _, _ => None
  end.

(** [enumerate(ls, start=1)] written out as rows. *)
Definition export_rows (snap_ts tid : string) (sd : Side) (ls : list Level)
  : list LevelExportRow :=
  imap (λ i lvl, mkRow snap_ts tid sd (S i) (price lvl) (size lvl)) ls.

(** The metrics of one book once both sides are parsed: from
    [bb, ba = best_bid_ask(bids, asks)] to the entry appended to
    [gold_rows]. *)
Definition metrics_of (snap_ts tid : string) (bids asks : list Level)
  : result MetricsRecord :=
  let '(bb, ba) := best_bid_ask bids asks in
  let mid := midpoint bb ba in
  let spread := calc_spread bb ba in
  let depth := calc_depth bids asks mid DEPTH_BAND in
  avg10 ← buy_avg_fill_price asks (of_Z 10);
  avg50 ← buy_avg_fill_price asks (of_Z 50);
  avg200 ← buy_avg_fill_price asks (of_Z 200);
  let baseline := match mid with Some m => Some m | None => ba end in
  let sl10 := slippage avg10 baseline in
  let sl50 := slippage avg50 baseline in
  let sl200 := slippage avg200 baseline in
  let score := calc_score depth spread sl50 in
  mret (mkMetrics snap_ts tid bb ba mid spread depth sl10 sl50 sl200 score).

(** The body of [for ob in orderbooks]: the Silver rows written and the
    Gold entry appended for [ob]. *)
Definition process_orderbook (ob : json F)
  : result (list LevelExportRow * MetricsRecord) :=
  a ← dict_get ob "asset_id" JNull;
  tid ← (if truthy a then mret a
         else b ← dict_get ob "token_id" JNull; mret (py_or b (JStr "")));
  let token_id := py_str tid in
  ts ← dict_get ob "timestamp" JNull;
  let snap_ts := py_str (py_or ts (JStr "")) in
  bids ← dict_get ob "bids" (JList []) ≫= parse_levels;
  asks ← dict_get ob "asks" (JList []) ≫= parse_levels;
  let bids_sorted := take TOP_LEVELS_PER_SIDE (sorted_reverse price bids) in
  let asks_sorted := take TOP_LEVELS_PER_SIDE (sorted price asks) in
  let rows := export_rows snap_ts token_id bid bids_sorted
              ++ export_rows snap_ts token_id ask asks_sorted in
  r ← metrics_of snap_ts token_id bids asks;
  mret (rows, r).

(** The whole loop, from the rows and entries gathered so far; an exception
    in one iteration ends it. *)
Fixpoint main_loop (orderbooks : list (json F))
    (silver : list LevelExportRow) (gold_rows : list MetricsRecord)
  : result (list LevelExportRow * list MetricsRecord) :=
  match orderbooks with
  | [] => mret (silver, gold_rows)
  | ob :: t =>
      '(rows, r) ← process_orderbook ob;
      main_loop t (silver ++ rows) (gold_rows ++ [r])
  end.

(** ** The same operations in the words of the specification *)

(** Level Parser, per record: a (price, size) pair when the record carries
    both fields and both coerce, nothing otherwise. *)
Definition level_of_record (x : json F) : option Level :=
  match x with
  | JDict m =>
      match m !! "price", m !! "size" with
      | Some p, Some s =>
          match py_float p, py_float s with
          | Ok pf, Ok sf => Some (mkLevel pf sf)
          | _, _ => None
          end
      | _, _ => None
      end
  | _ => None
  end.

(** Depth Aggregator: sizes of the bid levels priced at least [mid - b]
    plus sizes of the ask levels priced at most [mid + b]. *)
Definition depth_in_band (bids asks : list Level) (m b : F) : F :=
  py_sum (size <$> List.filter (λ l, m -! b <=! price l) bids)
  +! py_sum (size <$> List.filter (λ l, price l <=! m +! b) asks).

(** A side field the level parser can loop over: missing and falsy values
    count as the empty list; otherwise a list, a string or a mapping. *)
Definition iterable (v : json F) : bool :=
  match py_or v (JList []) with
  | JList _ | JStr _ | JDict _ => true
  | _ => false
  end.

(** A record the loop of [main] gets through: a mapping whose [bids] and
    [asks], where present, can be looped over. *)
Definition well_shaped (ob : json F) : bool :=
  match ob with
  | JDict m =>
      iterable (default (JList []) (m !! "bids"))
      && iterable (default (JList []) (m !! "asks"))
  | _ => false
  end.

(** Every derived field of an entry is absent. *)
Definition derived_absent (r : MetricsRecord) : Prop :=
  best_bid r = None ∧ best_ask r = None ∧ mid r = None ∧ spread r = None
  ∧ depth_1pt r = None ∧ slippage_buy_10 r = None
  ∧ slippage_buy_50 r = None ∧ slippage_buy_200 r = None ∧ score r = None.

(** Greedy book walk over levels in ascending price order, with no stop
    other than the partial fill. *)
Fixpoint greedy_walk (ls : list Level) (remainingBudget spent filled : F)
  : F * F :=
  match ls with
  | [] => (spent, filled)
  | l :: t =>
      if price l <=! of_Z 0 then greedy_walk t remainingBudget spent filled
      else
        let levelCost := price l *! size l in
        if levelCost <=! remainingBudget then
          greedy_walk t (remainingBudget -! levelCost)
            (spent +! levelCost) (filled +! size l)
        else
          (spent +! remainingBudget, filled +! remainingBudget /! price l)
  end.

(** The same walk, stopping as well once a full fill leaves at most [1e-9]
    of the budget. *)
Fixpoint greedy_walk_eps (ls : list Level) (remainingBudget spent filled : F)
  : F * F :=
  match ls with
  | [] => (spent, filled)
  | l :: t =>
      if price l <=! of_Z 0
      then greedy_walk_eps t remainingBudget spent filled
      else
        let levelCost := price l *! size l in
        if levelCost <=! remainingBudget then
          if remainingBudget -! levelCost <=! c_1e_9
          then (spent +! levelCost, filled +! size l)
          else
            greedy_walk_eps t (remainingBudget -! levelCost)
              (spent +! levelCost) (filled +! size l)
        else
          (spent +! remainingBudget, filled +! remainingBudget /! price l)
  end.

(** A spent total reached within a budget, step by step: from [spent]
    with [remaining] left, by whole levels each of a cost [<=] what remains
    at that point, which it then reduces, and at most one partial fill,
    which adds all that remains. *)
Inductive within_budget : F → F → F → Prop :=
  | wb_stop (remaining spent : F) : within_budget remaining spent spent
  | wb_full (remaining spent levelCost spent' : F) :
      levelCost <=! remaining = true →
      within_budget (remaining -! levelCost) (spent +! levelCost) spent' →
      within_budget remaining spent spent'
  | wb_partial (remaining spent : F) :
      within_budget remaining spent (spent +! remaining).

(** Result of a walk: spent over filled when filled exceeds [1e-12]. *)
Definition fill_price (totals : F * F) : option F :=
  let '(totalSpent, totalFilledShares) := totals in
  if totalFilledShares <=! c_1e_12 then None
  else Some (totalSpent /! totalFilledShares).

End Analytics.
Arguments Level F : clear implicits.
Arguments mkLevel {F} price size.
Arguments LevelExportRow F : clear implicits.
Arguments MetricsRecord F : clear implicits.

(* ================================================================== *)
(** * Levels as objects *)

(** [Level] is a plain dataclass, so a list of levels is a list of
    references to mutable objects, and [sorted] builds a new list of the
    same references.  The store maps each reference to the current fields
    of its object.  A computation runs from a store to an outcome and the
    store it leaves; [None] is a reference to nothing, which no Python
    program can hold. *)
Section Objects.
Context {F : Type} `{Number F}.

Definition ref : Type := positive.

Definition M (A : Type) : Type :=
  gmap ref (Level F) → option (result A * gmap ref (Level F)).

#[export] Instance M_ret : MRet M := λ A a h, Some (Ok a, h).
#[export] Instance M_bind : MBind M := λ A B f m h,
  match m h with
  | Some (Ok a, h') => f a h'
  | Some (Raise e, h') => Some (Raise e, h')
  | None => None
  end.

(** An expression that touches no object. *)
Definition lift {A : Type} (r : result A) : M A := λ h, Some (r, h).

(** Reading the fields of an object. *)
Definition load (l : ref) : M (Level F) := λ h,
  match h !! l with Some lvl => Some (Ok lvl, h) | None => None end.

(** Assigning the fields of an object, which a dataclass allows and the
    simulator never does. *)
Definition store (l : ref) (lvl : Level F) : M unit := λ h,
  match h !! l with Some _ => Some (Ok (), <[l := lvl]> h) | None => None end.

(** The keys [sorted] computes up front, one per item. *)
Fixpoint load_keys (ls : list ref) : M (list (F * ref)) :=
  match ls with
  | [] => mret []
  | l :: t =>
      lvl ← load l;
      ks ← load_keys t;
      mret ((price lvl, l) :: ks)
  end.

(** [sorted(asks, key=lambda l: l.price)] on references. *)
Definition sorted_refs (asks : list ref) : M (list ref) :=
  ks ← load_keys asks;
  mret ((sorted fst ks).*2).

(** The loop of [buy_avg_fill_price] on references. *)
Fixpoint walk_refs (ls : list ref) (remaining total_cost total_shares : F)
  : M (F * F) :=
  match ls with
  | [] => mret (total_cost, total_shares)
  | l :: t =>
      lvl ← load l;
      if price lvl <=! of_Z 0
      then walk_refs t remaining total_cost total_shares
      else
        let lvl_cost_full := price lvl *! size lvl in
        if lvl_cost_full <=! remaining then
          let total_cost' := total_cost +! lvl_cost_full in
          let total_shares' := total_shares +! size lvl in
          let remaining' := remaining -! lvl_cost_full in
          if remaining' <=! c_1e_9 then mret (total_cost', total_shares')
          else walk_refs t remaining' total_cost' total_shares'
        else
          partial_shares ← lift (py_div remaining (price lvl));
          mret (total_cost +! remaining, total_shares +! partial_shares)
  end.

Definition buy_avg_fill_price_refs (asks : list ref) (budget : F)
  : M (option F) :=
  if no_walk asks budget then mret None
  else
    asks_sorted ← sorted_refs asks;
    '(total_cost, total_shares) ←
      walk_refs asks_sorted budget (of_Z 0) (of_Z 0);
    if total_shares <=! c_1e_12 then mret None
    else q ← lift (py_div total_cost total_shares); mret (Some q).

(** The three calls of [main], one after the other on the same list. *)
Definition slippage_calls (asks : list ref)
  : M (option F * option F * option F) :=
  avg10 ← buy_avg_fill_price_refs asks (of_Z 10);
  avg50 ← buy_avg_fill_price_refs asks (of_Z 50);
  avg200 ← buy_avg_fill_price_refs asks (of_Z 200);
  mret (avg10, avg50, avg200).

(** The levels a list of references stands for in a store. *)
Definition deref (h : gmap ref (Level F)) (ls : list ref)
  : option (list (Level F)) :=
  mapM (λ l, h !! l) ls.

(** [l] refers to [lvl] in [h]. *)
Definition refers (h : gmap ref (Level F)) (l : ref) (lvl : Level F) : Prop :=
  h !! l = Some lvl.

End Objects.

(* ================================================================== *)
(** * Sample inputs *)

(** One ask level [{price: 2.0, size: 100}]. *)
Definition book_single : list (Level float) := [mkLevel 2%float 100%float].

(** A first level that costs all of a budget of 10 but [2**-31], then a
    dearer one. *)
Definition book_nearly_spent : list (Level float) :=
  [mkLevel 1%float (10 - 0x1p-31)%float; mkLevel 2%float 1%float].

(** Three small levels at [0.1] and a deep one at [0.95]. *)
Definition book_dimes : list (Level float) :=
  [mkLevel 0x1.999999999999ap-4%float 1%float;
   mkLevel 0x1.999999999999ap-4%float 1%float;
   mkLevel 0x1.999999999999ap-4%float 1%float;
   mkLevel 0x1.e666666666666p-1%float 10000%float].

(** A level of negative size, [-(2**53 + 2)], before a deep one at the
    same price. *)
Definition book_negative_size : list (Level float) :=
  [mkLevel 1%float (- 0x1.0000000000001p+53)%float;
   mkLevel 1%float 0x1p+60%float].

(** The same book in exact arithmetic. *)
Definition book_dimes_exact : list (Level Qc) :=
  [mkLevel (Q2Qc (1 # 10)) (Q2Qc 1);
   mkLevel (Q2Qc (1 # 10)) (Q2Qc 1);
   mkLevel (Q2Qc (1 # 10)) (Q2Qc 1);
   mkLevel (Q2Qc (95 # 100)) (Q2Qc 10000)].

(** The book of the end-to-end scenario: bids at 1.10 and 1.05, asks at
    1.20 and 1.25. *)
Definition scenario_bids : list (Level float) :=
  [mkLevel 0x1.199999999999ap+0%float 50%float;
   mkLevel 0x1.0cccccccccccdp+0%float 200%float].

Definition scenario_asks : list (Level float) :=
  [mkLevel 0x1.3333333333333p+0%float 30%float;
   mkLevel 0x1.4p+0%float 100%float].

(** A crossed book: the best bid 1.10 is above the best ask 1.05. *)
Definition crossed_bids : list (Level float) :=
  [mkLevel 0x1.199999999999ap+0%float 50%float].

Definition crossed_asks : list (Level float) :=
  [mkLevel 0x1.0cccccccccccdp+0%float 30%float].

(** A store with the level [{2.0, 100}] at reference 1. *)
Definition store_single : gmap ref (Level float) :=
  {[ 1%positive := mkLevel 2%float 100%float ]}.

(** A runtime for the samples.  [str] is right on strings, [None], booleans
    and integers and a placeholder elsewhere; [float] on a string knows the
    words [inf], [-inf] and [nan] only; [float] on an integer rounds to
    nearest even and overflows as CPython does.  No sample below has any
    other string where a number is expected, nor a float or a container as
    identity or timestamp. *)
#[export] Instance sample_runtime : Runtime float := {
  py_str v :=
    match v with
    | JStr s => s
    | JNull => "None"
    | JBool b => if b then "True" else "False"
    | JInt n => pretty n
    | _ => "?"
    end;
  float_of_str s :=
    if String.eqb s "inf" then Some infinity
    else if String.eqb s "-inf" then Some neg_infinity
    else if String.eqb s "nan" then Some nan
    else None;
  float_of_int n :=
    let x := float_of_Z n in if is_infinity x then None else Some x
}.

(** A raw level whose price is the float infinity, as [json.loads] reads
    [{"price": Infinity, "size": 1.0}]. *)
Definition raw_level_inf : json float :=
  JDict {[ "price" := JFloat infinity; "size" := JFloat 1%float ]}.

(** A raw level whose fields are the strings ["nan"] and ["inf"]. *)
Definition raw_level_words : json float :=
  JDict {[ "price" := JStr "nan"; "size" := JStr "inf" ]}.

(** A raw level [{"price": 2.0, "size": 100.0}]. *)
Definition raw_level_2_100 : json float :=
  JDict {[ "price" := JFloat 2%float; "size" := JFloat 100%float ]}.

(** A record with no [asset_id], no [token_id] and no [timestamp], and one
    good ask. *)
Definition record_no_identity : json float :=
  JDict {[ "asks" := JList [raw_level_2_100] ]}.

(** A record whose [bids] is the number 5. *)
Definition record_bids_number : json float :=
  JDict {[ "token_id" := JStr "t"; "bids" := JInt 5;
           "asks" := JList [raw_level_2_100] ]}.

(** A record whose sides are a string and a list of things that are not
    levels. *)
Definition record_garbage_sides : json float :=
  JDict {[ "token_id" := JStr "t"; "bids" := JStr "n/a";
           "asks" := JList [JNull; JInt 7; JDict {[ "price" := JStr "x" ]}] ]}.

(** A runtime for samples in exact arithmetic: [str] as in
    [sample_runtime], [float] on an integer exact, no string read as a
    number. *)
Definition exact_runtime : Runtime Qc := {|
  py_str v :=
    match v with
    | JStr s => s
    | JNull => "None"
    | JBool b => if b then "True" else "False"
    | JInt n => pretty n
    | _ => "?"
    end;
  float_of_str _ := None;
  float_of_int n := Some (of_Z n)
|}.

(** A raw level [{"price": p, "size": s}] of floats. *)
Definition raw_level (p s : float) : json float :=
  JDict {[ "price" := JFloat p; "size" := JFloat s ]}.

(** The end-to-end scenario as a raw record, in binary64, with a second
    bid at the best price 1.10. *)
Definition record_scenario_fields : gmap string (json float) :=
  {[ "asset_id" := JStr "tok"; "timestamp" := JStr "1700000000";
     "bids" := JList [raw_level 0x1.0cccccccccccdp+0 200;
                      raw_level 0x1.199999999999ap+0 50;
                      raw_level 0x1.199999999999ap+0 7];
     "asks" := JList [raw_level 0x1.4p+0 100;
                      raw_level 0x1.3333333333333p+0 30] ]}.

Definition record_scenario : json float := JDict record_scenario_fields.

(* ================================================================== *)
(** * Finding the latest snapshot *)

(** What is at a path: a file, or a directory with its named entries in the
    order [iterdir] lists them. *)
Inductive node : Type :=
  | File
  | Dir (entries : list (string * node)).

(** The two ways the lookup can fail. *)
Inductive os_error : Type := FileNotFoundError | NotADirectoryError.

(** [a < b] on the paths [base/date/time], given as (date, time): part by
    part, strings by their characters. *)
Definition path_lt (a b : string * string) : bool :=
  match String.compare a.1 b.1 with
  | Lt => true
  | Eq => String.ltb a.2 b.2
  | Gt => false
  end.

(** [sorted(l)] for items compared by [lt]. *)
Fixpoint insert_lt {A : Type} (lt : A → A → bool) (x : A) (l : list A)
  : list A :=
  match l with
  | [] => [x]
  | y :: t => if lt y x then y :: insert_lt lt x t else x :: y :: t
  end.

Definition sorted_lt {A : Type} (lt : A → A → bool) (l : list A) : list A :=
  foldr (insert_lt lt) [] l.

(** The inner loop: the entries of one date directory that are
    directories. *)
Definition time_dirs (date : string) (children : list (string * node))
  : list (string * string) :=
  omap (λ c, match c.2 with Dir _ => Some (date, c.1) | File => None end)
    children.

(** Both loops: [candidates] as it stands when they end. *)
Definition snapshot_candidates (entries : list (string * node))
  : list (string * string) :=
  entries ≫= λ d, match d.2 with
                  | Dir children => time_dirs d.1 children
                  | File => []
                  end.

(** [find_latest_snapshot(base)], with [base] given by what is there
    ([None]: nothing). *)
Definition find_latest_snapshot (base : option node)
  : os_error + string * string :=
  match base with
  | None => inl FileNotFoundError
  | Some File => inl NotADirectoryError
  | Some (Dir entries) =>
      match last (sorted_lt path_lt (snapshot_candidates entries)) with
      | None => inl FileNotFoundError
      | Some p => inr p
      end
  end.

(** A bronze directory with two dates, a stray file and a stray file
    inside a date. *)
Definition bronze_sample : node :=
  Dir [("2024-05-02", Dir [("093000", Dir []); ("latest.txt", File)]);
       ("README.md", File);
       ("2024-05-01", Dir [("235959", Dir []); ("120000", Dir [])]);
       ("2024-05-02b", File)].

(* ================================================================== *)
(** * Ingestion: batches of tokens *)

(** [range(0, stop, step)] for a length [stop]: a zero step is refused, a
    negative one gives nothing, a positive one gives [0, step, 2*step, ...]
    below [stop]. *)
Definition py_range (stop : nat) (step : Z) : result (list nat) :=
  if (step =? 0)%Z then Raise ValueError
  else if (step <? 0)%Z then Ok []
  else
    let n := Z.to_nat step in
    Ok ((λ k, (k * n)%nat)
          <$> seq 0 (match stop with O => O | S m => S (m / n)%nat end)).

(** [items[i:j]] for [0 <= i <= j]. *)
Definition py_slice {A : Type} (items : list A) (i j : nat) : list A :=
  take (j - i)%nat (drop i items).

(** [chunked(items, size)]. *)
Definition chunked {A : Type} (items : list A) (size : Z)
  : result (list (list A)) :=
  starts ← py_range (length items) size;
  Ok ((λ i, py_slice items i (i + Z.to_nat size)%nat)
        <$> (starts : list nat)).

(* ================================================================== *)
(** * Ingestion: the markets kept *)

(** [json.loads] on a string ([None]: it raises). *)
Class Decoder (F : Type) : Type := {
  json_loads : string → option (json F)
}.

Section Ingestion.
Context {F : Type} `{Number F} `{Runtime F} `{Decoder F}.

(** [v is True]. *)
Definition is_True (v : json F) : bool :=
  match v with
  | JBool true => true
  | _ => false
  end.

Definition safe_json_loads (x : json F) : json F :=
  match x with
  | JStr s =>
      match json_loads s with
      | Some v => v
      | None => x
      end
  | _ => x
  end.

(** [clob_token_ids_list] for the value of the market's [clobTokenIds]. *)
Definition clob_token_ids_list (v : json F) : list string :=
  match safe_json_loads v with
  | JStr _ => []
  | JList xs => py_str <$> xs
  | _ => []
  end.

(** The normalised market appended to [cleaned]. *)
Definition cleaned_market (m : json F) (toks : list string)
  : result (json F) :=
  market_id ← dict_get m "id" JNull;
  slug ← dict_get m "slug" JNull;
  question ← dict_get m "question" JNull;
  category ← dict_get m "category" JNull;
  startDate ← dict_get m "startDate" JNull;
  endDate ← dict_get m "endDate" JNull;
  active ← dict_get m "active" JNull;
  closed ← dict_get m "closed" JNull;
  enableOrderBook ← dict_get m "enableOrderBook" JNull;
  volumeNum ← dict_get m "volumeNum" JNull;
  liquidityNum ← dict_get m "liquidityNum" JNull;
  mret (JDict (list_to_map
    [("market_id", market_id); ("slug", slug); ("question", question);
     ("category", category); ("startDate", startDate);
     ("endDate", endDate); ("active", active); ("closed", closed);
     ("enableOrderBook", enableOrderBook); ("volumeNum", volumeNum);
     ("liquidityNum", liquidityNum);
     ("clobTokenIds", JList (JStr <$> toks))])).

(** The body of the loop over [raw_markets]: [None] for [continue]. *)
Definition pick_market (m : json F) : result (option (json F)) :=
  e ← dict_get m "enableOrderBook" (JBool false);
  if negb (truthy e) then mret None
  else
    c ← dict_get m "closed" JNull;
    if is_True c then mret None
    else
      a ← dict_get m "active" JNull;
      if negb (is_True a) then mret None
      else
        t ← dict_get m "clobTokenIds" JNull;
        let toks := clob_token_ids_list t in
        if (length toks =? 0)%nat then mret None
        else x ← cleaned_market m toks; mret (Some x).

(** The loop over [raw_markets] around a body, [cleaned] growing at its
    end. *)
Fixpoint pick_loop (body : json F → result (option (json F)))
    (raw_markets cleaned : list (json F)) : result (list (json F)) :=
  match raw_markets with
  | [] => Ok cleaned
  | m :: rest =>
      c ← body m;
      pick_loop body rest (match c with
                           | Some x => cleaned ++ [x]
                           | None => cleaned
                           end)
  end.

(** [vol_key(x)]: any exception gives [0.0]. *)
Definition vol_key (x : json F) : F :=
  match dict_get x "volumeNum" JNull
        ≫= λ v, py_float (py_or v (JFloat (of_Z 0))) with
  | Ok f => f
  | Raise _ => of_Z 0
  end.

(** [l[:n]]: a negative [n] counts from the end. *)
Definition py_slice_to {A : Type} (l : list A) (n : Z) : list A :=
  if (n <? 0)%Z then take (length l - Z.to_nat (- n))%nat l
  else take (Z.to_nat n) l.

(** [pick_top_markets(raw_markets, top_n)]. *)
Definition pick_top_markets (raw_markets : list (json F)) (top_n : Z)
  : result (list (json F)) :=
  cleaned ← pick_loop pick_market raw_markets [];
  mret (py_slice_to (sorted_reverse vol_key cleaned) top_n).

(** The markets the loop keeps: order book enabled, not closed, active,
    and a non-empty list [xs] of tokens, given as a list or as a string
    that decodes to one. *)
Definition tradeable (m : gmap string (json F)) (xs : list (json F))
  : Prop :=
  (∃ e, m !! "enableOrderBook" = Some e ∧ truthy e = true)
  ∧ m !! "closed" ≠ Some (JBool true)
  ∧ m !! "active" = Some (JBool true)
  ∧ xs ≠ []
  ∧ (m !! "clobTokenIds" = Some (JList xs)
     ∨ ∃ s, m !! "clobTokenIds" = Some (JStr s)
            ∧ json_loads s = Some (JList xs)).

End Ingestion.

(** [json.loads] on the strings of the samples. *)
Definition sample_decoder {F : Type} : Decoder F := {|
  json_loads s :=
    if String.eqb s "[11, 12]" then Some (JList [JInt 11; JInt 12])
    else if String.eqb s "[]" then Some (JList [])
    else None
|}.

(** A raw market with its flags, volume and tokens. *)
Definition raw_market {F : Type} (id : string)
    (enabled active closed : bool) (volume tokens : json F) : json F :=
  JDict {[ "id" := JStr id; "enableOrderBook" := JBool enabled;
           "active" := JBool active; "closed" := JBool closed;
           "volumeNum" := volume; "clobTokenIds" := tokens ]}.

(** Four markets: two tradeable, one closed, one without tokens. *)
Definition raw_markets_sample {F : Type} : list (json F) :=
  [raw_market "a" true true false (JInt 5) (JStr "[11, 12]");
   raw_market "b" true true true (JInt 9) (JList [JStr "21"]);
   raw_market "c" true true false (JStr "n/a") (JStr "[]");
   raw_market "d" true true false (JInt 7) (JList [JStr "41"])].

(** ** The one-shot script

    [polymarket_snapshot_once.py] has its own [pick_top_markets];
    [safe_json_loads] and [vol_key] are the same text in both scripts. *)
Module Once.
Section Once.
Context {F : Type} `{Number F} `{Runtime F} `{Decoder F}.

Definition cleaned_market (m : json F) (token_ids : list string)
  : result (json F) :=
  market_id ← dict_get m "id" JNull;
  slug ← dict_get m "slug" JNull;
  question ← dict_get m "question" JNull;
  category ← dict_get m "category" JNull;
  volumeNum ← dict_get m "volumeNum" JNull;
  liquidityNum ← dict_get m "liquidityNum" JNull;
  mret (JDict (list_to_map
    [("market_id", market_id); ("slug", slug); ("question", question);
     ("category", category); ("volumeNum", volumeNum);
     ("liquidityNum", liquidityNum);
     ("clobTokenIds", JList (JStr <$> token_ids))])).

Definition pick_market (m : json F) : result (option (json F)) :=
  e ← dict_get m "enableOrderBook" JNull;
  if negb (is_True e) then mret None
  else
    c ← dict_get m "closed" JNull;
    if is_True c then mret None
    else
      a ← dict_get m "active" JNull;
      if negb (is_True a) then mret None
      else
        t ← dict_get m "clobTokenIds" JNull;
        let token_ids :=
          match safe_json_loads t with
          | JList xs => py_str <$> xs
          | _ => []
          end in
        match token_ids with
        | [] => mret None
        | _ :: _ => x ← cleaned_market m token_ids; mret (Some x)
        end.

Definition pick_top_markets (raw_markets : list (json F)) (top_n : Z)
  : result (list (json F)) :=
  cleaned ← pick_loop pick_market raw_markets [];
  mret (py_slice_to (sorted_reverse vol_key cleaned) top_n).

End Once.
End Once.

(** The normalised market of the one-shot script, from that of the
    snapshot script: five fields fewer. *)
Definition without_flags {F : Type} (c : json F) : json F :=
  match c with
  | JDict mc =>
      JDict (foldr delete mc ["startDate"; "endDate"; "active"; "closed";
                              "enableOrderBook"])
  | _ => c
  end.

(* ================================================================== *)
(** * Ingestion: fetching the order books *)

Section Fetch.
Context {F W E : Type}.

(** The outside world, in a state [W]: [post payload] stands for
    [requests.post(url, json=payload)], [raise_for_status()] and
    [r.json()] together, with [E] the exceptions they raise; [sleep] for
    [time.sleep(sleep_s)] at a delay it accepts. *)
Variable post : list (json F) → W → (E + json F) * W.
Variable sleep : W → W.

Inductive fetch_error : Type :=
  | ChunkError (e : exn)
  | RequestError (e : E).

(** [[{"token_id": tid} for tid in batch]]. *)
Definition payload (batch : list string) : list (json F) :=
  (λ tid, JDict {[ "token_id" := JStr tid ]}) <$> batch.

(** The loop over the batches. *)
Fixpoint fetch_loop (batches : list (list string)) (out : list (json F))
    (w : W) : (fetch_error + list (json F)) * W :=
  match batches with
  | [] => (inr out, w)
  | batch :: rest =>
      match post (payload batch) w with
      | (inl e, w') => (inl (RequestError e), w')
      | (inr data, w') =>
          fetch_loop rest
            (match data with
             | JList items => out ++ items
             | _ => out ++ [data]
             end)
            (sleep w')
      end
  end.

(** [fetch_orderbooks_bulk(token_ids, batch_size)]. *)
Definition fetch_orderbooks_bulk (token_ids : list string) (batch_size : Z)
    (w : W) : (fetch_error + list (json F)) * W :=
  match chunked token_ids batch_size with
  | Raise e => (inl (ChunkError e), w)
  | Ok batches => fetch_loop batches [] w
  end.

(** [out.extend(data)] or [out.append(data)]: the books of a response. *)
Definition books_of (data : json F) : list (json F) :=
  match data with
  | JList items => items
  | _ => [data]
  end.

(** The same world keeping a log of the requests: each payload posted with
    what came back. *)
Definition recording_post (p : list (json F))
    (lw : list (list (json F) * (E + json F)) * W)
  : (E + json F) * (list (list (json F) * (E + json F)) * W) :=
  let '(r, w') := post p lw.2 in (r, (lw.1 ++ [(p, r)], w')).

Definition recording_sleep (lw : list (list (json F) * (E + json F)) * W)
  : list (list (json F) * (E + json F)) * W :=
  (lw.1, sleep lw.2).

End Fetch.

Arguments ChunkError {E} e.
Arguments RequestError {E} e.

(** A server that answers each request with one book per token asked,
    and counts the requests. *)
Definition echo_post (p : list (json float)) (n : nat)
  : (Empty_set + json float) * nat :=
  (inr (JList p), S n).

(** Asks with two levels at one price, in two orders: after the level at
    1.00, a large and a tiny level at 2.00, of costs [5 - 2**-34] and
    [2**-34]. *)
Definition asks_large_first : list (Level float) :=
  [mkLevel 1%float 5%float;
   mkLevel 2%float (0x1.4p+1 - 0x1p-35)%float;
   mkLevel 2%float 0x1p-35%float].

Definition asks_tiny_first : list (Level float) :=
  [mkLevel 1%float 5%float;
   mkLevel 2%float 0x1p-35%float;
   mkLevel 2%float (0x1.4p+1 - 0x1p-35)%float].

(* ================================================================== *)
(** * Both instances obey the laws *)

Lemma SFcompare_antisym (x y : spec_float) :
  SFcompare y x = option_map CompOpp (SFcompare x y).
Proof.
  destruct x as [sx|sx| |sx mx ex], y as [sy|sy| |sy my ey]; simpl;
    try reflexivity; try (destruct sx; reflexivity);
    try (destruct sy; reflexivity); try (destruct sx, sy; reflexivity).
  rewrite (Z.compare_antisym ey ex), !Pos.compare_cont_spec.
  rewrite (Pos.compare_antisym my mx).
  destruct sx, sy, (ey ?= ex)%Z, (my ?= mx)%positive; reflexivity.
Qed.

Lemma float_ltb_asym (x y : float) :
  PrimFloat.ltb x y = true → PrimFloat.ltb y x = false.
Proof.
  rewrite !ltb_spec. unfold SFltb.
  rewrite (SFcompare_antisym (Prim2SF x) (Prim2SF y)).
  destruct (SFcompare (Prim2SF x) (Prim2SF y)) as [[]|]; simpl; congruence.
Qed.

Lemma float_ltb_not_leb (x y : float) :
  PrimFloat.ltb x y = true → PrimFloat.leb y x = false.
Proof.
  rewrite ltb_spec, leb_spec. unfold SFltb, SFleb.
  rewrite (SFcompare_antisym (Prim2SF x) (Prim2SF y)).
  destruct (SFcompare (Prim2SF x) (Prim2SF y)) as [[]|]; simpl; congruence.
Qed.

Lemma float_leb_zero_eps (x : float) :
  PrimFloat.leb x (float_of_Z 0) = true →
  PrimFloat.leb x 0x1.19799812dea11p-40%float = true.
Proof.
  rewrite !leb_spec.
  change (Prim2SF (float_of_Z 0)) with (S754_zero false).
  change (Prim2SF 0x1.19799812dea11p-40%float)
    with (S754_finite false 4951760157141521 (-92)).
  unfold SFleb.
  destruct (Prim2SF x) as [s|[]| |[] m e]; intros Hx;
    first [ discriminate Hx | reflexivity ].
Qed.

#[export] Instance float_NumberLaws : NumberLaws float.
Proof.
  split.
  - exact float_ltb_asym.
  - exact float_ltb_not_leb.
  - exact float_leb_zero_eps.
  - reflexivity.
Qed.

(** The comparisons of binary64 are those of the ranks. *)
Lemma SFcompare_rank (x y : spec_float) :
  match SFcompare x y with
  | None => SFrank x = None ∨ SFrank y = None
  | Some c =>
      ∃ a b, SFrank x = Some a ∧ SFrank y = Some b
             ∧ match c with
               | Lt => lex_lt a b
               | Eq => a = b
               | Gt => lex_lt b a
               end
  end.
Proof.
  destruct x as [sx|sx| |sx mx ex], y as [sy|sy| |sy my ey];
    cbn [SFcompare SFrank]; auto;
    try (destruct sx; eexists _, _; split_and!; try reflexivity;
         unfold lex_lt; cbn; lia);
    try (destruct sy; eexists _, _; split_and!; try reflexivity;
         unfold lex_lt; cbn; lia);
    try (destruct sx, sy; eexists _, _; split_and!; try reflexivity;
         unfold lex_lt; cbn; lia).
  rewrite Pos.compare_cont_spec. cbn [Pos.switch_Eq].
  destruct sx, sy; eexists _, _; (split; [reflexivity|]);
    (split; [reflexivity|]);
    try (unfold lex_lt; cbn; lia);
    destruct (Z.compare_spec ex ey) as [->|?|?];
    try (unfold lex_lt; cbn; lia);
    destruct (Pos.compare_spec mx my) as [->|?|?]; cbn [CompOpp];
    try reflexivity; unfold lex_lt; cbn; lia.
Qed.

Lemma float_ltb_rank (x y : float) :
  PrimFloat.ltb x y = true
  ↔ ∃ a b, SFrank (Prim2SF x) = Some a ∧ SFrank (Prim2SF y) = Some b
           ∧ lex_lt a b.
Proof.
  rewrite ltb_spec. unfold SFltb.
  pose proof (SFcompare_rank (Prim2SF x) (Prim2SF y)) as Hc.
  destruct (SFcompare (Prim2SF x) (Prim2SF y)) as [[]|].
  - destruct Hc as (a & b & Ha & Hb & ->). split; [discriminate|].
    intros (a' & b' & Ha' & Hb' & Hlt). exfalso.
    rewrite Ha in Ha'. rewrite Hb in Hb'. injection Ha' as <-.
    injection Hb' as <-. unfold lex_lt in Hlt. lia.
  - split; [intros _; exact Hc|reflexivity].
  - destruct Hc as (a & b & Ha & Hb & Hgt). split; [discriminate|].
    intros (a' & b' & Ha' & Hb' & Hlt). exfalso.
    rewrite Ha in Ha'. rewrite Hb in Hb'. injection Ha' as <-.
    injection Hb' as <-. unfold lex_lt in Hlt, Hgt. lia.
  - split; [discriminate|]. intros (a & b & Ha & Hb & _).
    destruct Hc as [Hc|Hc]; congruence.
Qed.

Lemma float_leb_rank (x y : float) :
  PrimFloat.leb x y = true
  ↔ ∃ a b, SFrank (Prim2SF x) = Some a ∧ SFrank (Prim2SF y) = Some b
           ∧ (lex_lt a b ∨ a = b).
Proof.
  rewrite leb_spec. unfold SFleb.
  pose proof (SFcompare_rank (Prim2SF x) (Prim2SF y)) as Hc.
  destruct (SFcompare (Prim2SF x) (Prim2SF y)) as [[]|].
  - destruct Hc as (a & b & Ha & Hb & ->). split; [intros _|reflexivity].
    eauto 6.
  - destruct Hc as (a & b & Ha & Hb & Hlt). split; [intros _|reflexivity].
    eauto 6.
  - destruct Hc as (a & b & Ha & Hb & Hgt). split; [discriminate|].
    intros (a' & b' & Ha' & Hb' & Hle). exfalso.
    rewrite Ha in Ha'. rewrite Hb in Hb'. injection Ha' as <-.
    injection Hb' as <-. unfold lex_lt in Hle, Hgt.
    destruct Hle as [Hle| ->]; lia.
  - split; [discriminate|]. intros (a & b & Ha & Hb & _).
    destruct Hc as [Hc|Hc]; congruence.
Qed.

Lemma float_ltb_false_rank (x y : float) (a b : Z * Z * Z) :
  SFrank (Prim2SF x) = Some a → SFrank (Prim2SF y) = Some b →
  PrimFloat.ltb x y = false → lex_lt b a ∨ b = a.
Proof.
  intros Ha Hb Hlt. apply not_true_iff_false in Hlt.
  rewrite float_ltb_rank in Hlt.
  destruct a as [[a1 a2] a3], b as [[b1 b2] b3].
  assert (Hn : ¬ lex_lt (a1, a2, a3) (b1, b2, b3)) by (intros ?; eauto 6).
  unfold lex_lt in *. cbn in *.
  destruct (decide ((b1, b2, b3) = (a1, a2, a3))) as [?|Hne]; [now right|].
  left. assert (b1 ≠ a1 ∨ b2 ≠ a2 ∨ b3 ≠ a3) by (
    destruct (decide (b1 = a1)), (decide (b2 = a2)), (decide (b3 = a3));
    subst; tauto). lia.
Qed.

#[export] Instance float_OrderLaws : OrderLaws float.
Proof.
  split; unfold is_number; cbn [fle flt float_Number].
  - intros x y z. rewrite !float_ltb_rank.
    intros (a & b & Ha & Hb & Hab) (b' & c & Hb' & Hc & Hbc).
    rewrite Hb in Hb'. injection Hb' as <-. exists a, c.
    split_and!; [assumption..|]. unfold lex_lt in *. lia.
  - intros x y z. rewrite !float_leb_rank.
    intros (a & b & Ha & Hb & Hab) (b' & c & Hb' & Hc & Hbc).
    rewrite Hb in Hb'. injection Hb' as <-. exists a, c.
    split_and!; [assumption..|]. unfold lex_lt in *.
    destruct Hab as [Hab| ->], Hbc as [Hbc| ->]; auto. left. lia.
  - intros x y. rewrite float_ltb_rank, float_leb_rank.
    intros (a & b & Ha & Hb & Hab). eauto 6.
  - intros x y z. rewrite !float_ltb_rank, float_leb_rank.
    intros (a & b & Ha & Hb & Hab) (b' & c & Hb' & Hc & Hbc).
    rewrite Hb in Hb'. injection Hb' as <-. exists a, c.
    split_and!; [assumption..|]. unfold lex_lt in *.
    destruct Hbc as [Hbc| <-]; [lia|assumption].
  - intros x y z. rewrite !float_ltb_rank, float_leb_rank.
    intros (a & b & Ha & Hb & Hab) (b' & c & Hb' & Hc & Hbc).
    rewrite Hb in Hb'. injection Hb' as <-. exists a, c.
    split_and!; [assumption..|]. unfold lex_lt in *.
    destruct Hab as [Hab| ->]; [lia|assumption].
  - intros x y. rewrite !float_leb_rank.
    intros (a & _ & Ha & _ & _) (b & _ & Hb & _ & _) Hlt.
    exists b, a. split_and!; [assumption..|].
    exact (float_ltb_false_rank x y a b Ha Hb Hlt).
  - intros x y. rewrite !float_leb_rank.
    intros (a & b & Ha & Hb & _). split; [exists a, a|exists b, b]; auto.
Qed.

Lemma Qc_fle_iff (x y : Qc) : x <=! y = true ↔ (x <= y)%Qc.
Proof. apply Qle_bool_iff. Qed.

Lemma Qc_fle_false_iff (x y : Qc) : x <=! y = false ↔ (y < x)%Qc.
Proof.
  rewrite <- not_true_iff_false, Qc_fle_iff. split.
  - apply Qcnot_le_lt.
  - apply Qclt_not_le.
Qed.

Lemma Qc_flt_iff (x y : Qc) : x <! y = true ↔ (x < y)%Qc.
Proof.
  change (x <! y) with (negb (y <=! x)).
  rewrite negb_true_iff. apply Qc_fle_false_iff.
Qed.

#[export] Instance Qc_NumberLaws : NumberLaws Qc.
Proof.
  split.
  - intros x y Hxy. apply not_true_iff_false.
    rewrite Qc_flt_iff in Hxy. rewrite Qc_flt_iff.
    intros Hyx. exact (Qclt_not_le _ _ Hxy (Qclt_le_weak _ _ Hyx)).
  - intros x y Hxy. apply Qc_fle_false_iff. now apply Qc_flt_iff.
  - intros x Hx. rewrite Qc_fle_iff in Hx. rewrite Qc_fle_iff.
    apply Qcle_trans with (1 := Hx). now apply Qc_fle_iff.
  - reflexivity.
Qed.

#[export] Instance Qc_OrderLaws : OrderLaws Qc.
Proof.
  split; unfold is_number.
  - intros x y z. rewrite !Qc_flt_iff. apply Qclt_trans.
  - intros x y z. rewrite !Qc_fle_iff. apply Qcle_trans.
  - intros x y. rewrite Qc_flt_iff, Qc_fle_iff. apply Qclt_le_weak.
  - intros x y z. rewrite !Qc_flt_iff, Qc_fle_iff. apply Qclt_le_trans.
  - intros x y z. rewrite !Qc_flt_iff, Qc_fle_iff. apply Qcle_lt_trans.
  - intros x y _ _ Hxy. apply not_true_iff_false in Hxy.
    rewrite Qc_flt_iff in Hxy. apply Qc_fle_iff. now apply Qcnot_lt_le.
  - intros x y _. split; apply Qc_fle_iff, Qcle_refl.
Qed.

(* ================================================================== *)
(** * The execution-cost walk *)

Section Walk.
Context {F : Type} `{Number F}.

Lemma is_zero_false_of_not_le (x : F) :
  x <=! of_Z 0 = false → is_zero x = false.
Proof. intros Hx. unfold is_zero. now rewrite Hx. Qed.

Lemma py_div_ok (x y : F) : y <=! of_Z 0 = false → py_div x y = Ok (x /! y).
Proof.
  intros Hy. unfold py_div. now rewrite (is_zero_false_of_not_le _ Hy).
Qed.

(** The loop never raises, and its totals are those of the walk that stops
    on a partial fill or on an exhausted budget. *)
Lemma walk_greedy_walk_eps (ls : list (Level F)) :
  ∀ remaining total_cost total_shares,
    walk ls remaining total_cost total_shares
    = Ok (greedy_walk_eps ls remaining total_cost total_shares).
Proof.
  induction ls as [|lvl t IH]; intros r tc ts; simpl; [reflexivity|].
  destruct (price lvl <=! of_Z 0) eqn:Hp; [apply IH|].
  destruct (price lvl *! size lvl <=! r) eqn:Hfull.
  - destruct (r -! price lvl *! size lvl <=! c_1e_9); [reflexivity|apply IH].
  - now rewrite (py_div_ok _ _ Hp).
Qed.

Lemma no_walk_iff {A : Type} (asks : list A) (budget : F) :
  no_walk asks budget = true ↔ budget <=! of_Z 0 = true ∨ asks = [].
Proof.
  unfold no_walk. rewrite orb_true_iff.
  destruct asks; intuition congruence.
Qed.

Lemma buy_avg_fill_price_unfold (asks : list (Level F)) (budget : F) :
  buy_avg_fill_price asks budget =
  if no_walk asks budget then Ok None
  else
    let '(total_cost, total_shares) :=
      greedy_walk_eps (sorted price asks) budget (of_Z 0) (of_Z 0) in
    if total_shares <=! c_1e_12 then Ok None
    else q ← py_div total_cost total_shares; mret (Some q).
Proof.
  unfold buy_avg_fill_price.
  destruct (no_walk asks budget); [reflexivity|].
  rewrite walk_greedy_walk_eps. simpl.
  now destruct (greedy_walk_eps _ _ _ _).
Qed.

(** Under the laws the final division cannot raise either. *)
Lemma buy_avg_fill_price_ok `{!NumberLaws F} (asks : list (Level F))
    (budget : F) :
  buy_avg_fill_price asks budget =
  Ok (if no_walk asks budget then None
      else fill_price
             (greedy_walk_eps (sorted price asks) budget (of_Z 0) (of_Z 0))).
Proof.
  rewrite buy_avg_fill_price_unfold.
  destruct (no_walk asks budget); [reflexivity|].
  unfold fill_price.
  destruct (greedy_walk_eps _ _ _ _) as [tc ts].
  destruct (ts <=! c_1e_12) eqn:Hts; [reflexivity|].
  unfold py_div, is_zero.
  destruct (ts <=! of_Z 0) eqn:H0; [|reflexivity].
  apply fle_zero_eps in H0. congruence.
Qed.

(** C4. [buy_avg_fill_price] returns [None] exactly when the budget is
    [<= 0], or the ask list is empty, or the shares filled by the loop are
    [<= 1e-12]; a budget [<= 0] gives [None] whatever the book.  "Does not
    exceed" is the test the code makes, [total_shares <= 1e-12]. *)
Theorem buy_avg_fill_price_absent_iff (asks : list (Level F)) (budget : F) :
  (buy_avg_fill_price asks budget = Ok None
   ↔ budget <=! of_Z 0 = true
     ∨ asks = []
     ∨ ∃ total_cost total_shares,
         walk (sorted price asks) budget (of_Z 0) (of_Z 0)
         = Ok (total_cost, total_shares)
         ∧ total_shares <=! c_1e_12 = true)
  ∧ (budget <=! of_Z 0 = true → buy_avg_fill_price asks budget = Ok None).
Proof.
  rewrite buy_avg_fill_price_unfold, walk_greedy_walk_eps.
  destruct (no_walk asks budget) eqn:Hg.
  - apply no_walk_iff in Hg. split; [|reflexivity].
    split; [intros _|reflexivity]. destruct Hg; auto.
  - assert (Hb : budget <=! of_Z 0 = false ∧ asks ≠ []).
    { apply not_true_iff_false in Hg. rewrite no_walk_iff in Hg.
      split; [apply not_true_iff_false|]; intros ?; apply Hg; auto. }
    destruct Hb as [Hb Ha]. split; [|congruence].
    destruct (greedy_walk_eps _ _ _ _) as [tc ts].
    destruct (ts <=! c_1e_12) eqn:Hts.
    + split; [intros _|reflexivity]. right; right. eauto.
    + split.
      * unfold py_div. destruct (is_zero ts); discriminate.
      * intros [?|[?|(tc' & ts' & [= <- <-] & ?)]]; congruence.
Qed.

End Walk.

(* ================================================================== *)
(** * Sorting by key *)

Section Sorting.
Context {F : Type} `{Number F} {A : Type} (key : A → F).

Lemma insert_by_perm (x : A) (l : list A) : insert_by key x l ≡ₚ x :: l.
Proof.
  induction l as [|y t IH]; simpl; [reflexivity|].
  destruct (key y <! key x); [|reflexivity].
  rewrite IH. apply perm_swap.
Qed.

Lemma sorted_perm (l : list A) : sorted key l ≡ₚ l.
Proof.
  induction l as [|x t IH]; simpl; [reflexivity|].
  now rewrite insert_by_perm, IH.
Qed.

Lemma rev_reverse (l : list A) : rev l = reverse l.
Proof. apply rev_alt. Qed.

Lemma sorted_reverse_perm (l : list A) : sorted_reverse key l ≡ₚ l.
Proof.
  unfold sorted_reverse. rewrite !rev_reverse.
  now rewrite reverse_Permutation, sorted_perm, reverse_Permutation.
Qed.

(** Sorting commutes with replacing each item by what it stands for. *)
Lemma insert_by_fmap {B : Type} (f : B → A) (x : B) (l : list B) :
  insert_by key (f x) (f <$> l) = f <$> insert_by (key ∘ f) x l.
Proof.
  induction l as [|y t IH]; [reflexivity|].
  rewrite fmap_cons. cbn [insert_by compose].
  destruct (key (f y) <! key (f x)); [|reflexivity].
  rewrite fmap_cons. f_equal. exact IH.
Qed.

Lemma sorted_fmap {B : Type} (f : B → A) (l : list B) :
  sorted key (f <$> l) = f <$> sorted (key ∘ f) l.
Proof.
  unfold sorted. induction l as [|x t IH]; [reflexivity|].
  rewrite fmap_cons. cbn [foldr]. rewrite IH. apply insert_by_fmap.
Qed.

End Sorting.

(** On keys that are numbers the result is in ascending order of the keys,
    and keys that compare equal keep the order they came in. *)
Section SortingOrder.
Context {F : Type} `{Number F} `{!NumberLaws F} `{!OrderLaws F}.
Context {A : Type} (key : A → F).

Lemma flt_irrefl (x : F) : x <! x = false.
Proof.
  destruct (x <! x) eqn:Hx; [|reflexivity].
  now rewrite (flt_asym _ _ Hx) in Hx.
Qed.

Lemma insert_by_StronglySorted (x : A) (l : list A) :
  is_number (key x) = true →
  Forall (λ a, is_number (key a) = true) l →
  StronglySorted (λ a b, key a <=! key b = true) l →
  StronglySorted (λ a b, key a <=! key b = true) (insert_by key x l).
Proof.
  intros Hx Hl Hs. induction Hs as [|y t Ht IH Hy]; cbn [insert_by].
  - repeat constructor.
  - apply Forall_cons in Hl as [Hyn Hl].
    destruct (key y <! key x) eqn:Hyx.
    + constructor; [exact (IH Hl)|].
      rewrite (insert_by_perm key x t). constructor; [|exact Hy].
      now apply flt_fle.
    + apply (fle_total _ _ Hyn Hx) in Hyx.
      constructor; [constructor; assumption|].
      constructor; [exact Hyx|].
      eapply Forall_impl; [exact Hy|]. intros z Hz. cbn beta in Hz.
      exact (fle_trans _ _ _ Hyx Hz).
Qed.

Lemma sorted_StronglySorted (l : list A) :
  Forall (λ a, is_number (key a) = true) l →
  StronglySorted (λ a b, key a <=! key b = true) (sorted key l).
Proof.
  unfold sorted. induction 1 as [|x t Hx Ht IH]; cbn [foldr]; [constructor|].
  apply insert_by_StronglySorted; [exact Hx| |exact IH].
  fold (sorted key t). now rewrite (sorted_perm key t).
Qed.

Lemma StronglySorted_rev (R : relation A) (l : list A) :
  StronglySorted R l → StronglySorted (flip R) (rev l).
Proof.
  induction 1 as [|y t Ht IH Hy]; cbn [rev]; [constructor|].
  apply StronglySorted_app_2; [|exact IH|repeat constructor].
  intros a b Ha Hb. apply list_elem_of_singleton in Hb as ->.
  rewrite list_elem_of_In, <- in_rev, <- list_elem_of_In in Ha.
  rewrite Forall_forall in Hy. unfold flip. auto.
Qed.

Lemma sorted_reverse_StronglySorted (l : list A) :
  Forall (λ a, is_number (key a) = true) l →
  StronglySorted (λ a b, key b <=! key a = true) (sorted_reverse key l).
Proof.
  intros Hl. unfold sorted_reverse.
  apply (StronglySorted_rev (λ a b, key a <=! key b = true)).
  apply sorted_StronglySorted.
  rewrite rev_reverse. now rewrite reverse_Permutation.
Qed.

(** Ties: the items whose key compares equal to [k]. *)
Lemma insert_by_same_rank (k : F) (x : A) (l : list A) :
  filter (λ a, same_rank (key a) k = true) (insert_by key x l)
  = filter (λ a, same_rank (key a) k = true) (x :: l).
Proof.
  induction l as [|y t IH]; [reflexivity|]. cbn [insert_by].
  destruct (key y <! key x) eqn:Hyx; [|reflexivity].
  rewrite filter_cons, IH, !filter_cons.
  destruct (decide (same_rank (key y) k = true)) as [Hy|Hy]; [|reflexivity].
  destruct (decide (same_rank (key x) k = true)) as [Hx|Hx]; [|reflexivity].
  exfalso. unfold same_rank in Hx, Hy.
  apply andb_true_iff in Hx as [Hxk Hkx], Hy as [Hyk Hky].
  pose proof (flt_fle_trans _ _ _ Hyx Hxk) as Hlt.
  apply flt_not_fle in Hlt. congruence.
Qed.

Lemma sorted_same_rank (k : F) (l : list A) :
  filter (λ a, same_rank (key a) k = true) (sorted key l)
  = filter (λ a, same_rank (key a) k = true) l.
Proof.
  unfold sorted. induction l as [|x t IH]; [reflexivity|]. cbn [foldr].
  now rewrite insert_by_same_rank, !filter_cons, IH.
Qed.

Lemma sorted_reverse_same_rank (k : F) (l : list A) :
  filter (λ a, same_rank (key a) k = true) (sorted_reverse key l)
  = filter (λ a, same_rank (key a) k = true) l.
Proof.
  unfold sorted_reverse. rewrite !rev_reverse, filter_reverse.
  rewrite sorted_same_rank, <- filter_reverse. now rewrite reverse_involutive.
Qed.

End SortingOrder.

(* ================================================================== *)
(** * The walk against its description *)

Section GreedyWalk.
Context {F : Type} `{Number F} `{!NumberLaws F}.

Lemma no_walk_false_of_pos (asks : list (Level F)) (budget : F) :
  of_Z 0 <! budget = true → asks ≠ [] → no_walk asks budget = false.
Proof.
  intros HB Ha. apply not_true_iff_false. rewrite no_walk_iff.
  apply flt_not_fle in HB. intros [?|?]; congruence.
Qed.

(** C2, as amended.  For a budget [B > 0] and asks none of whose prices
    is NaN, [buy_avg_fill_price] returns the average price
    [totalSpent / totalFilledShares] (when the filled shares exceed
    [1e-12]) of the greedy walk over the levels in ascending price order,
    levels of equal price in the order of the input, that skips
    non-positive prices, takes a whole level when its cost fits the
    remaining budget, otherwise takes the partial fill and stops, and that
    also stops once a whole-level fill leaves at most [1e-9] of the
    budget. *)
Theorem buy_avg_fill_price_greedy_walk `{!OrderLaws F}
    (asks : list (Level F)) (B : F) :
  of_Z 0 <! B = true →
  Forall (λ l, is_number (price l) = true) asks →
  buy_avg_fill_price asks B
  = Ok (fill_price (greedy_walk_eps (sorted price asks) B (of_Z 0) (of_Z 0)))
  ∧ sorted price asks ≡ₚ asks
  ∧ StronglySorted (λ a b, price a <=! price b = true) (sorted price asks)
  ∧ ∀ p, filter (λ l, same_rank (price l) p = true) (sorted price asks)
         = filter (λ l, same_rank (price l) p = true) asks.
Proof.
  intros HB Hnum. split_and!.
  - rewrite buy_avg_fill_price_ok.
    destruct asks as [|a t].
    + simpl. unfold no_walk. rewrite orb_true_r.
      unfold fill_price. now rewrite zero_le_eps.
    + rewrite no_walk_false_of_pos; [reflexivity|exact HB|discriminate].
  - apply sorted_perm.
  - exact (sorted_StronglySorted price asks Hnum).
  - intros p. apply sorted_same_rank.
Qed.

End GreedyWalk.

(** The sample of the specification: one level [{2.0, 100}] and budget 50
    give a partial fill of 25 shares for 50, at exactly 2.0. *)
Lemma buy_avg_fill_price_single :
  greedy_walk_eps (sorted price book_single) (of_Z 50) (of_Z 0) (of_Z 0)
  = (50%float, 25%float)
  ∧ buy_avg_fill_price book_single (of_Z 50) = Ok (Some 2%float).
Proof.
  split; [vm_compute; reflexivity|].
  destruct (buy_avg_fill_price_greedy_walk book_single (of_Z 50)) as [-> _].
  - vm_compute; reflexivity.
  - repeat constructor.
  - vm_compute; reflexivity.
Defined.

(** C2 as stated fails: on [book_nearly_spent] and budget 10 the code stops
    after the first level (what remains, [2**-31], is below [1e-9]) and
    returns 1.0, while the walk without that stop goes on to a partial fill
    of the second level and averages above 1.0. *)
Lemma greedy_walk_without_stop_differs :
  of_Z 0 <! of_Z 10 = true
  ∧ buy_avg_fill_price book_nearly_spent (of_Z 10) = Ok (Some 1%float)
  ∧ fill_price
      (greedy_walk (sorted price book_nearly_spent) (of_Z 10) (of_Z 0) (of_Z 0))
    = Some 0x1.000000001999ap+0%float
  ∧ buy_avg_fill_price book_nearly_spent (of_Z 10)
    ≠ Ok (fill_price
            (greedy_walk (sorted price book_nearly_spent) (of_Z 10)
               (of_Z 0) (of_Z 0))).
Proof.
  split; [|split; [|split]]; try (vm_compute; reflexivity).
  intros Heq. vm_compute in Heq. discriminate Heq.
Qed.

(* ================================================================== *)
(** * The budget bound *)

(** Whatever the arithmetic, the loop reaches its total within the budget
    step by step. *)
Lemma walk_within_budget {F : Type} `{Number F} (ls : list (Level F)) :
  ∀ remaining total_cost total_shares total_cost' total_shares',
    walk ls remaining total_cost total_shares
    = Ok (total_cost', total_shares') →
    within_budget remaining total_cost total_cost'.
Proof.
  induction ls as [|lvl t IH]; intros r tc ts tc' ts'; cbn [walk].
  - intros [= <- <-]. constructor.
  - destruct (price lvl <=! of_Z 0); [apply IH|]. cbv zeta.
    destruct (price lvl *! size lvl <=! r) eqn:Hfull.
    + destruct (r -! price lvl *! size lvl <=! c_1e_9).
      * intros [= <- <-]. apply (wb_full _ _ _ _ Hfull). constructor.
      * intros Hw. apply (wb_full _ _ _ _ Hfull). exact (IH _ _ _ _ _ Hw).
    + destruct (py_div r (price lvl)) as [q|e]; [|discriminate].
      intros [= <- <-]. constructor.
Qed.

Section BudgetBound.
Implicit Types (ls asks : list (Level Qc)) (r s f B p : Qc).

(** Without rounding, a total reached within the budget is at most what
    was spent plus what was left. *)
Lemma within_budget_le r s s' :
  (0 <= r)%Qc → within_budget r s s' → (s' <= s + r)%Qc.
Proof.
  intros Hr Hw. induction Hw as [r s|r s c s' Hc Hw IH|r s].
  - rewrite <- (Qcplus_0_r s) at 1.
    apply Qcplus_le_compat; [apply Qcle_refl|exact Hr].
  - apply Qc_fle_iff in Hc.
    replace (s + r)%Qc with (s +! c + (r -! c))%Qc by (simpl; ring).
    apply IH. apply Qcle_minus_iff in Hc. exact Hc.
  - apply Qcle_refl.
Qed.

Lemma greedy_walk_eps_spent_le ls :
  ∀ r s f s' f',
    (0 <= r)%Qc →
    greedy_walk_eps ls r s f = (s', f') →
    (s' <= s + r)%Qc.
Proof.
  intros r s f s' f' Hr Hw. apply (within_budget_le r s s' Hr).
  apply (walk_within_budget ls r s f s' f').
  now rewrite walk_greedy_walk_eps, Hw.
Qed.

End BudgetBound.

(** C10, as amended.  Whatever the arithmetic, binary64 included, the
    loop of [buy_avg_fill_price] reaches its total step by step within the
    budget it tracks: a whole level only when its cost is [<=] what
    remains, which that cost then reduces, and a partial fill for all that
    remains.  In exact arithmetic a total so reached is at most what was
    spent plus what was left; so whenever [buy_avg_fill_price] returns a
    fill price for a budget [B > 0], the cash spent is at most [B], and the
    fill price times the filled shares is that cash. *)
Theorem buy_avg_fill_price_within_budget :
  (∀ (F : Type) (HF : Number F) (asks : list (Level F))
     (B total_cost total_shares : F),
     walk (sorted price asks) B (of_Z 0) (of_Z 0)
     = Ok (total_cost, total_shares) →
     within_budget B (of_Z 0) total_cost)
  ∧ (∀ remaining spent spent' : Qc,
       (0 <= remaining)%Qc → within_budget remaining spent spent' →
       (spent' <= spent + remaining)%Qc)
  ∧ (∀ (asks : list (Level Qc)) (B p : Qc),
       of_Z 0 <! B = true →
       buy_avg_fill_price asks B = Ok (Some p) →
       ∃ total_cost total_shares,
         walk (sorted price asks) B (of_Z 0) (of_Z 0)
         = Ok (total_cost, total_shares)
         ∧ (total_cost <= B)%Qc
         ∧ p *! total_shares = total_cost
         ∧ (p *! total_shares <= B)%Qc).
Proof.
  split_and!.
  - intros F HF asks B tc ts Hw. exact (walk_within_budget _ _ _ _ _ _ Hw).
  - exact within_budget_le.
  - intros asks B p HB Hbuy.
    rewrite buy_avg_fill_price_ok in Hbuy. rewrite walk_greedy_walk_eps.
    destruct (no_walk asks B); [discriminate|].
    destruct (greedy_walk_eps _ _ _ _) as [tc ts] eqn:Hw.
    exists tc, ts.
    apply greedy_walk_eps_spent_le in Hw.
    2:{ apply Qc_flt_iff in HB. now apply Qclt_le_weak. }
    change (of_Z 0 + B)%Qc with (0 + B)%Qc in Hw. rewrite Qcplus_0_l in Hw.
    unfold fill_price in Hbuy.
    destruct (ts <=! c_1e_12) eqn:Hts; [discriminate|].
    injection Hbuy as <-.
    assert (Hmul : tc /! ts *! ts = tc).
    { simpl. field. intros ->. discriminate Hts. }
    split; [reflexivity|]. split; [exact Hw|]. split; [exact Hmul|].
    exact (eq_ind_r (λ x, (x <= B)%Qc) Hw Hmul).
Qed.

(** The bound at work.  On [book_dimes] in binary64 the total
    10.000000000000002 is reached within the budget of 10 step by step; on
    [book_dimes_exact] all of the budget is spent, no more. *)
Lemma buy_avg_fill_price_within_budget_dimes :
  within_budget (of_Z 10) (of_Z 0) 0x1.4000000000001p+3%float
  ∧ ∃ p total_cost total_shares,
      buy_avg_fill_price book_dimes_exact (of_Z 10) = Ok (Some p)
      ∧ walk (sorted price book_dimes_exact) (of_Z 10) (of_Z 0) (of_Z 0)
        = Ok (total_cost, total_shares)
      ∧ (total_cost <= of_Z 10)%Qc
      ∧ p *! total_shares = total_cost
      ∧ (p *! total_shares <= of_Z 10)%Qc.
Proof.
  destruct buy_avg_fill_price_within_budget as (Hsteps & _ & Hexact).
  split.
  - apply (Hsteps float _ book_dimes (of_Z 10) _
             0x1.a6bca1af286bep+3%float).
    vm_compute. reflexivity.
  - eexists.
    assert (Hbuy : buy_avg_fill_price book_dimes_exact (of_Z 10)
                   = Ok (Some _)) by (vm_compute; reflexivity).
    assert (HB : of_Z 0 <! (of_Z 10 : Qc) = true)
      by (vm_compute; reflexivity).
    destruct (Hexact book_dimes_exact (of_Z 10) _ HB Hbuy)
      as (tc & ts & Hw & Hle & Hmul & Hle').
    exists tc, ts. auto.
Defined.

(** C10 as stated fails in binary64: on [book_dimes] and budget 10 the
    three sums [0.1 + 0.1 + 0.1] and the three differences [10 - 0.1 - 0.1
    - 0.1] round apart, and the cash spent comes out one unit in the last
    place above 10; so does the fill price times the filled shares. *)
Lemma budget_exceeded_by_rounding :
  of_Z 0 <! of_Z 10 = true
  ∧ walk (sorted price book_dimes) (of_Z 10) (of_Z 0) (of_Z 0)
    = Ok (0x1.4000000000001p+3%float, 0x1.a6bca1af286bep+3%float)
  ∧ buy_avg_fill_price book_dimes (of_Z 10)
    = Ok (Some 0x1.8391d93e37136p-1%float)
  ∧ of_Z 10 <! 0x1.4000000000001p+3%float = true
  ∧ of_Z 10 <! 0x1.8391d93e37136p-1%float *! 0x1.a6bca1af286bep+3%float
    = true.
Proof. repeat split; vm_compute; reflexivity. Qed.

(** The excess is not a matter of the last place only: with a level of
    negative size the remaining budget grows past what binary64 holds
    exactly, and 14 is spent on a budget of 13. *)
Lemma budget_exceeded_by_a_unit :
  walk (sorted price book_negative_size) (of_Z 13) (of_Z 0) (of_Z 0)
  = Ok (14%float, 14%float)
  ∧ buy_avg_fill_price book_negative_size (of_Z 13) = Ok (Some 1%float)
  ∧ of_Z 13 <! 14%float = true.
Proof. repeat split; vm_compute; reflexivity. Qed.

(* ================================================================== *)
(** * Best prices, midpoint, spread, depth and score *)

Section Metrics.
Context {F : Type} `{Number F}.

Lemma best_bid_ask_no_bids (a : Level F) (asks : list (Level F)) :
  ∃ ba, best_bid_ask [] (a :: asks) = (None, Some ba).
Proof. unfold best_bid_ask. simpl. eauto. Qed.

(** C5. The midpoint is absent when both best prices are, is the one
    present when only one is, and is [(best_bid + best_ask) / 2] when both
    are; with no bids and some asks it is the best ask. *)
Theorem midpoint_rule :
  midpoint None None = None
  ∧ (∀ ba : F, midpoint None (Some ba) = Some ba)
  ∧ (∀ bb : F, midpoint (Some bb) None = Some bb)
  ∧ (∀ bb ba : F,
       midpoint (Some bb) (Some ba) = Some ((bb +! ba) /! of_Z 2))
  ∧ (∀ (a : Level F) asks,
       ∃ ba, best_bid_ask [] (a :: asks) = (None, Some ba)
             ∧ midpoint (best_bid_ask [] (a :: asks)).1
                 (best_bid_ask [] (a :: asks)).2 = Some ba).
Proof.
  repeat split.
  intros a asks. destruct (best_bid_ask_no_bids a asks) as [ba Hba].
  exists ba. now rewrite Hba.
Qed.

(** What [main] puts in the entry of a book, field by field. *)
Lemma metrics_of_inv (snap_ts tid : string) (bids asks : list (Level F))
    (r : MetricsRecord F) :
  metrics_of snap_ts tid bids asks = Ok r →
  ∃ avg10 avg50 avg200,
    buy_avg_fill_price asks (of_Z 10) = Ok avg10
    ∧ buy_avg_fill_price asks (of_Z 50) = Ok avg50
    ∧ buy_avg_fill_price asks (of_Z 200) = Ok avg200
    ∧ let bb := (best_bid_ask bids asks).1 in
      let ba := (best_bid_ask bids asks).2 in
      let baseline :=
        match midpoint bb ba with Some m => Some m | None => ba end in
      r = mkMetrics snap_ts tid bb ba (midpoint bb ba) (calc_spread bb ba)
            (calc_depth bids asks (midpoint bb ba) DEPTH_BAND)
            (slippage avg10 baseline) (slippage avg50 baseline)
            (slippage avg200 baseline)
            (calc_score (calc_depth bids asks (midpoint bb ba) DEPTH_BAND)
               (calc_spread bb ba) (slippage avg50 baseline)).
Proof.
  unfold metrics_of. cbn [fst snd best_bid_ask].
  destruct (buy_avg_fill_price asks (of_Z 10)) as [avg10|]; [|discriminate].
  destruct (buy_avg_fill_price asks (of_Z 50)) as [avg50|]; [|discriminate].
  destruct (buy_avg_fill_price asks (of_Z 200)) as [avg200|]; [|discriminate].
  simpl. intros [= <-]. exists avg10, avg50, avg200. auto.
Qed.

(** C6. In the entry of every book the spread is present exactly when both
    best prices are, and is then [best_ask - best_bid], whichever of the two
    is the larger: nothing tests for a crossed or locked book. *)
Theorem spread_rule (snap_ts tid : string) (bids asks : list (Level F))
    (r : MetricsRecord F) :
  metrics_of snap_ts tid bids asks = Ok r →
  (is_Some (spread r) ↔ is_Some (best_bid r) ∧ is_Some (best_ask r))
  ∧ (∀ bb ba, best_bid r = Some bb → best_ask r = Some ba →
       spread r = Some (ba -! bb))
  ∧ (best_bid r = None ∨ best_ask r = None → spread r = None).
Proof.
  intros Hr. apply metrics_of_inv in Hr as (a10 & a50 & a200 & _ & _ & _ & ->).
  cbn [spread best_bid best_ask].
  destruct (best_bid_ask bids asks).1 as [bb|], (best_bid_ask bids asks).2
    as [ba|]; cbn [calc_spread]; rewrite ?is_Some_alt;
    intuition congruence.
Qed.

(** The conditional sum of [calc_depth] is the sum over the levels kept. *)
Lemma sum_sizes_if_filter (keep : Level F → bool) (ls : list (Level F)) :
  sum_sizes_if keep ls = py_sum (size <$> List.filter keep ls).
Proof.
  unfold sum_sizes_if, py_sum. generalize (of_Z 0 : F).
  induction ls as [|l t IH]; intros acc; simpl; [reflexivity|].
  destruct (keep l); simpl; apply IH.
Qed.

Lemma sum_sizes_if_snoc (keep : Level F → bool) (ls : list (Level F))
    (l : Level F) :
  sum_sizes_if keep (ls ++ [l])
  = if keep l then sum_sizes_if keep ls +! size l else sum_sizes_if keep ls.
Proof. unfold sum_sizes_if. now rewrite fold_left_app. Qed.

(** C7. The depth is absent exactly when the midpoint is; otherwise it is
    the sum of the sizes of the bid levels priced at least [mid - b] plus
    the sum of the sizes of the ask levels priced at most [mid + b], one
    number for both sides.  Each level of a side is tested and added on its
    own, whatever levels came before it, so levels of equal price all
    count. *)
Theorem calc_depth_rule (bids asks : list (Level F)) (band : F) :
  (∀ mid, calc_depth bids asks mid band = None ↔ mid = None)
  ∧ (∀ m, calc_depth bids asks (Some m) band
          = Some (depth_in_band bids asks m band))
  ∧ (∀ keep (ls : list (Level F)) l,
       sum_sizes_if keep (ls ++ [l])
       = if keep l then sum_sizes_if keep ls +! size l
         else sum_sizes_if keep ls).
Proof.
  split_and!.
  - intros [m|]; simpl; split; congruence.
  - intros m. unfold depth_in_band. simpl.
    now rewrite !sum_sizes_if_filter.
  - apply sum_sizes_if_snoc.
Qed.

(** C8. In the entry of every book the score is present exactly when the
    depth, the spread and the slippage at budget 50 (the middle one of
    [BUDGETS]) all are, and is then
    [depth / 1000 - spread * 3 - slippage_50 * 4]. *)
Theorem score_rule (snap_ts tid : string) (bids asks : list (Level F))
    (r : MetricsRecord F) :
  metrics_of snap_ts tid bids asks = Ok r →
  (is_Some (score r)
   ↔ is_Some (depth_1pt r) ∧ is_Some (spread r)
     ∧ is_Some (slippage_buy_50 r))
  ∧ (∀ d s sl, depth_1pt r = Some d → spread r = Some s →
       slippage_buy_50 r = Some sl →
       score r = Some (d /! of_Z 1000 -! s *! of_Z 3 -! sl *! of_Z 4))
  ∧ BUDGETS !! 1%nat = Some (of_Z 50)
  ∧ ∃ avg50,
      buy_avg_fill_price asks (of_Z 50) = Ok avg50
      ∧ slippage_buy_50 r
        = slippage avg50
            match mid r with Some m => Some m | None => best_ask r end.
Proof.
  intros Hr.
  apply metrics_of_inv in Hr as (a10 & a50 & a200 & _ & H50 & _ & ->).
  cbn [score depth_1pt spread slippage_buy_50 mid best_ask].
  split_and!.
  - destruct (calc_depth _ _ _ _), (calc_spread _ _), (slippage a50 _);
      cbn [calc_score]; rewrite ?is_Some_alt; tauto.
  - intros d s sl -> -> ->. reflexivity.
  - reflexivity.
  - exists a50. auto.
Qed.

End Metrics.

(** The spread of the crossed sample book is negative and reported as it
    is. *)
Lemma spread_rule_crossed :
  ∃ r, metrics_of "" "" crossed_bids crossed_asks = Ok r
       ∧ best_bid r = Some 0x1.199999999999ap+0%float
       ∧ best_ask r = Some 0x1.0cccccccccccdp+0%float
       ∧ spread r
         = Some (0x1.0cccccccccccdp+0%float -! 0x1.199999999999ap+0%float)
       ∧ 0x1.0cccccccccccdp+0%float -! 0x1.199999999999ap+0%float <! of_Z 0
         = true.
Proof.
  eexists.
  assert (Hr : metrics_of "" "" crossed_bids crossed_asks = Ok _)
    by (vm_compute; reflexivity).
  destruct (spread_rule _ _ _ _ _ Hr) as (_ & Hs & _).
  split; [exact Hr|]. split; [reflexivity|]. split; [reflexivity|].
  split; [exact (Hs _ _ eq_refl eq_refl)|].
  vm_compute; reflexivity.
Defined.

(** The score of the end-to-end scenario. *)
Lemma score_rule_scenario :
  ∃ r d s sl,
    metrics_of "" "" scenario_bids scenario_asks = Ok r
    ∧ depth_1pt r = Some d ∧ spread r = Some s
    ∧ slippage_buy_50 r = Some sl
    ∧ score r = Some (d /! of_Z 1000 -! s *! of_Z 3 -! sl *! of_Z 4)
    ∧ best_bid r = Some 0x1.199999999999ap+0%float
    ∧ best_ask r = Some 0x1.3333333333333p+0%float
    ∧ d = 0%float.
Proof.
  eexists. eexists. eexists. eexists.
  assert (Hr : metrics_of "" "" scenario_bids scenario_asks = Ok _)
    by (vm_compute; reflexivity).
  destruct (score_rule _ _ _ _ _ Hr) as (_ & Hs & _).
  split; [exact Hr|].
  split; [reflexivity|]. split; [reflexivity|]. split; [reflexivity|].
  split; [exact (Hs _ _ _ eq_refl eq_refl eq_refl)|].
  repeat split.
Defined.

(* ================================================================== *)
(** * The simulator leaves the levels alone *)

Section Frame.
Context {F : Type} `{Number F}.
Implicit Types (h : gmap ref (Level F)) (lvls : list (Level F)).

Lemma deref_Forall2 h (ls : list ref) lvls :
  deref h ls = Some lvls ↔ Forall2 (refers h) ls lvls.
Proof. apply mapM_Some. Qed.

Lemma insert_by_Forall2 {A B : Type} (R : A → B → Prop)
    (keyA : A → F) (keyB : B → F) (x : A) (y : B)
    (l : list A) (k : list B) :
  (∀ a b, R a b → keyA a = keyB b) →
  R x y → Forall2 R l k →
  Forall2 R (insert_by keyA x l) (insert_by keyB y k).
Proof.
  intros Hkey Hxy. induction 1 as [|a b l k Hab Hlk IH]; simpl.
  - repeat constructor. exact Hxy.
  - rewrite (Hkey _ _ Hab), (Hkey _ _ Hxy).
    destruct (keyB b <! keyB y); repeat constructor; assumption.
Qed.

Lemma sorted_Forall2 {A B : Type} (R : A → B → Prop)
    (keyA : A → F) (keyB : B → F) (l : list A) (k : list B) :
  (∀ a b, R a b → keyA a = keyB b) →
  Forall2 R l k → Forall2 R (sorted keyA l) (sorted keyB k).
Proof.
  intros Hkey. induction 1; simpl; [constructor|].
  now apply insert_by_Forall2.
Qed.

Lemma load_keys_run h (ls : list ref) lvls :
  Forall2 (refers h) ls lvls →
  ∃ ks, load_keys ls h = Some (Ok ks, h)
        ∧ Forall2 (λ k lvl, k.1 = price lvl ∧ h !! k.2 = Some lvl) ks lvls.
Proof.
  induction 1 as [|l lvl ls lvls Hl _ (ks & Hks & Hrel)]; simpl.
  - exists []. split; [reflexivity|constructor].
  - exists ((price lvl, l) :: ks). split.
    + unfold mbind, M_bind, load. rewrite Hl. now rewrite Hks.
    + constructor; [split; [reflexivity|exact Hl]|exact Hrel].
Qed.

Lemma sorted_refs_run h (asks : list ref) lvls :
  Forall2 (refers h) asks lvls →
  ∃ asks_sorted,
    sorted_refs asks h = Some (Ok asks_sorted, h)
    ∧ Forall2 (refers h) asks_sorted (sorted price lvls).
Proof.
  intros Hrel. destruct (load_keys_run _ _ _ Hrel) as (ks & Hks & Hk).
  exists ((sorted fst ks).*2). split.
  - unfold sorted_refs, mbind, M_bind. now rewrite Hks.
  - apply Forall2_fmap_l.
    eapply Forall2_impl.
    + apply (sorted_Forall2 _ fst price); [|exact Hk]. now intros ?? [??].
    + now intros ?? [??].
Qed.

Lemma walk_refs_run h (ls : list ref) lvls :
  Forall2 (refers h) ls lvls →
  ∀ remaining total_cost total_shares,
    walk_refs ls remaining total_cost total_shares h
    = Some (walk lvls remaining total_cost total_shares, h).
Proof.
  induction 1 as [|l lvl ls lvls Hl _ IH]; intros r tc ts; [reflexivity|].
  cbn [walk_refs walk]. unfold mbind at 1, M_bind at 1, load at 1.
  rewrite Hl.
  destruct (price lvl <=! of_Z 0); [apply IH|].
  destruct (price lvl *! size lvl <=! r).
  - destruct (r -! price lvl *! size lvl <=! c_1e_9); [reflexivity|apply IH].
  - unfold mbind, M_bind, lift. now destruct (py_div r (price lvl)).
Qed.

Lemma buy_avg_fill_price_refs_run h (asks : list ref) lvls (budget : F) :
  Forall2 (refers h) asks lvls →
  buy_avg_fill_price_refs asks budget h
  = Some (buy_avg_fill_price lvls budget, h).
Proof.
  intros Hrel. unfold buy_avg_fill_price_refs, buy_avg_fill_price.
  assert (Hg : no_walk asks budget = no_walk lvls budget).
  { unfold no_walk. now destruct Hrel. }
  rewrite Hg. destruct (no_walk lvls budget); [reflexivity|].
  destruct (sorted_refs_run _ _ _ Hrel) as (asks_sorted & Hs & Hrel').
  unfold mbind at 1, M_bind at 1. rewrite Hs.
  unfold mbind at 1, M_bind at 1. rewrite (walk_refs_run _ _ _ Hrel').
  destruct (walk (sorted price lvls) budget (of_Z 0) (of_Z 0))
    as [[tc ts]|e]; [|reflexivity].
  simpl. destruct (ts <=! c_1e_12); [reflexivity|].
  unfold mbind, M_bind, lift. now destruct (py_div tc ts).
Qed.

(** C9. On a store where the references of [asks] stand for the levels
    [lvls], [buy_avg_fill_price] returns what it returns on [lvls] and
    leaves the store as it found it, for every budget; so the calls for
    10, 50 and 200 in a row each see [lvls] and leave every level with its
    price and size. *)
Theorem buy_avg_fill_price_refs_frame h (asks : list ref) lvls :
  deref h asks = Some lvls →
  (∀ budget,
     buy_avg_fill_price_refs asks budget h
     = Some (buy_avg_fill_price lvls budget, h))
  ∧ slippage_calls asks h
    = Some (avg10 ← buy_avg_fill_price lvls (of_Z 10);
            avg50 ← buy_avg_fill_price lvls (of_Z 50);
            avg200 ← buy_avg_fill_price lvls (of_Z 200);
            mret (avg10, avg50, avg200),
            h)
  ∧ ∀ r h',
      slippage_calls asks h = Some (r, h') → deref h' asks = Some lvls.
Proof.
  intros Hd. pose proof (proj1 (deref_Forall2 _ _ _) Hd) as Hrel.
  assert (Hcalls : slippage_calls asks h
    = Some (avg10 ← buy_avg_fill_price lvls (of_Z 10);
            avg50 ← buy_avg_fill_price lvls (of_Z 50);
            avg200 ← buy_avg_fill_price lvls (of_Z 200);
            mret (avg10, avg50, avg200),
            h)).
  { unfold slippage_calls.
    unfold mbind at 1, M_bind at 1.
    rewrite (buy_avg_fill_price_refs_run _ _ _ _ Hrel).
    destruct (buy_avg_fill_price lvls (of_Z 10)); [|reflexivity].
    unfold mbind at 1, M_bind at 1.
    rewrite (buy_avg_fill_price_refs_run _ _ _ _ Hrel).
    destruct (buy_avg_fill_price lvls (of_Z 50)); [|reflexivity].
    unfold mbind at 1, M_bind at 1.
    rewrite (buy_avg_fill_price_refs_run _ _ _ _ Hrel).
    now destruct (buy_avg_fill_price lvls (of_Z 200)). }
  split; [|split].
  - intros budget. now apply buy_avg_fill_price_refs_run.
  - exact Hcalls.
  - intros r h'. rewrite Hcalls. now intros [= _ <-].
Qed.

End Frame.

(** One level in a store, three budgets: every call returns 2.0 and the
    store is the one it started from. *)
Lemma buy_avg_fill_price_refs_frame_single :
  deref store_single [1%positive] = Some book_single
  ∧ buy_avg_fill_price_refs [1%positive] (of_Z 50) store_single
    = Some (Ok (Some 2%float), store_single)
  ∧ slippage_calls [1%positive] store_single
    = Some (Ok (Some 2%float, Some 2%float, Some 2%float), store_single).
Proof.
  assert (Hd : deref store_single [1%positive] = Some book_single)
    by (vm_compute; reflexivity).
  destruct (buy_avg_fill_price_refs_frame store_single [1%positive]
              book_single Hd) as (Hbuy & Hcalls & _).
  split; [exact Hd|]. split.
  - rewrite Hbuy. vm_compute; reflexivity.
  - rewrite Hcalls. vm_compute; reflexivity.
Defined.

(* ================================================================== *)
(** * The level parser *)

Section Parser.
Context {F : Type} `{Number F} `{Runtime F}.

Lemma make_level_level_of_record (x : json F) :
  match make_level x with Ok lvl => Some lvl | Raise _ => None end
  = level_of_record x.
Proof.
  unfold make_level, level_of_record.
  destruct x as [ | | | | | |m]; try reflexivity.
  cbn [getitem].
  destruct (m !! "price") as [p|]; [|reflexivity].
  destruct (m !! "size") as [s|].
  - cbn. destruct (py_float p), (py_float s); reflexivity.
  - cbn. destruct (py_float p); reflexivity.
Qed.

Lemma parse_loop_omap (xs : list (json F)) :
  ∀ out, parse_loop xs out = out ++ omap level_of_record xs.
Proof.
  induction xs as [|x t IH]; intros out; cbn [parse_loop omap list_omap].
  - now rewrite app_nil_r.
  - rewrite <- make_level_level_of_record.
    destruct (make_level x); rewrite IH; [|reflexivity].
    now rewrite <- app_assoc.
Qed.

Lemma py_iter_or_list (l : list (json F)) :
  py_iter (py_or (JList l) (JList [])) = Ok l.
Proof. now destruct l. Qed.

(** C3, as amended.  The parser returns, in input order, one level per
    record that is a mapping with a [price] and a [size] on both of which
    [float()] succeeds, carrying the two values [float()] returned, and
    nothing for any other record; it asks nothing more of the values, so a
    record whose fields are floats is kept whatever floats they are. *)
Theorem parse_levels_rule :
  (∀ side_levels : json F,
     parse_levels side_levels
     = (xs ← py_iter (py_or side_levels (JList []));
        mret (omap (M:=list) (level_of_record (F:=F)) xs)
        : result (list (Level F))))
  ∧ (∀ l : list (json F),
       parse_levels (JList l) = Ok (omap (M:=list) (level_of_record (F:=F)) l))
  ∧ (∀ (m : gmap string (json F)) p s,
       m !! "price" = Some (JFloat p) → m !! "size" = Some (JFloat s) →
       parse_levels (JList [JDict m]) = Ok [mkLevel p s])
  ∧ (∀ x : json F,
       level_of_record x = None ↔ ∀ lvl, make_level x ≠ Ok lvl).
Proof.
  assert (Hlist : ∀ l : list (json F),
            parse_levels (JList l)
            = Ok (omap (M:=list) (level_of_record (F:=F)) l)).
  { intros l. unfold parse_levels. rewrite py_iter_or_list.
    cbn. now rewrite parse_loop_omap. }
  split_and!.
  - intros v. unfold parse_levels.
    destruct (py_iter _) as [xs|e]; [|reflexivity].
    cbn. now rewrite parse_loop_omap.
  - exact Hlist.
  - intros m p s Hp Hs. rewrite Hlist. cbn. now rewrite Hp, Hs.
  - intros x. rewrite <- make_level_level_of_record.
    destruct (make_level x) as [lvl|e]; split; try congruence.
    intros Hno. now destruct (Hno lvl).
Qed.

End Parser.

Lemma parse_levels_inf (rt : Runtime float) :
  parse_levels (JList [raw_level_inf; raw_level_2_100])
  = Ok [mkLevel infinity 1%float; mkLevel 2%float 100%float].
Proof. reflexivity. Qed.

(** C3 as stated fails: whatever the runtime, the raw level
    [{"price": Infinity, "size": 1.0}] comes out of the parser as a level
    whose price is infinite. *)
Lemma parse_levels_keeps_infinity :
  ¬ ∃ rt : Runtime float,
      ∀ side_levels lvls (l : Level float),
        parse_levels side_levels = Ok lvls → l ∈ lvls →
        is_finite (price l) = true ∧ is_finite (size l) = true.
Proof.
  intros [rt Hfin].
  destruct (Hfin _ _ (mkLevel infinity 1%float) (parse_levels_inf rt))
    as [Hp _].
  - apply list_elem_of_here.
  - discriminate Hp.
Qed.

(* ================================================================== *)
(** * The loop of [main] over a batch *)

Section Orchestrator.
Context {F : Type} `{Number F} `{Runtime F}.

Lemma parse_levels_ok_iff (v : json F) :
  iterable v = true ↔ ∃ lvls, parse_levels v = Ok lvls.
Proof.
  unfold iterable, parse_levels.
  destruct (py_or v (JList [])); cbn; split; intros Hx;
    first [ solve [eauto] | discriminate Hx | destruct Hx as [? [=]] ].
Qed.

Lemma dict_get_dict (m : gmap string (json F)) (k : string) (dflt : json F) :
  dict_get (JDict m) k dflt = Ok (default dflt (m !! k)).
Proof. reflexivity. Qed.

(** What the body of the loop does on a mapping, once its sides are
    parsed. *)
Lemma process_orderbook_dict (m : gmap string (json F))
    (bids asks : list (Level F)) :
  parse_levels (default (JList []) (m !! "bids")) = Ok bids →
  parse_levels (default (JList []) (m !! "asks")) = Ok asks →
  process_orderbook (JDict m)
  = let a := default JNull (m !! "asset_id") in
    let tid :=
      py_str (if truthy a then a
              else py_or (default JNull (m !! "token_id")) (JStr "")) in
    let snap_ts :=
      py_str (py_or (default JNull (m !! "timestamp")) (JStr "")) in
    r ← metrics_of snap_ts tid bids asks;
    mret (export_rows snap_ts tid bid
            (take TOP_LEVELS_PER_SIDE (sorted_reverse price bids))
          ++ export_rows snap_ts tid ask
               (take TOP_LEVELS_PER_SIDE (sorted price asks)),
          r).
Proof.
  intros Hb Ha. unfold process_orderbook. rewrite !dict_get_dict.
  cbn [mbind result_bind]. rewrite Hb, Ha.
  destruct (truthy (default JNull (m !! "asset_id"))); reflexivity.
Qed.

Lemma process_orderbook_ok_parsed (m : gmap string (json F))
    (out : list (LevelExportRow F) * MetricsRecord F) :
  process_orderbook (JDict m) = Ok out →
  ∃ bids asks,
    parse_levels (default (JList []) (m !! "bids")) = Ok bids
    ∧ parse_levels (default (JList []) (m !! "asks")) = Ok asks.
Proof.
  unfold process_orderbook. rewrite !dict_get_dict.
  cbn [mbind result_bind].
  destruct (truthy (default JNull (m !! "asset_id")));
    cbn [mbind result_bind mret result_ret];
    (destruct (parse_levels (default (JList []) (m !! "bids")));
     [|discriminate];
     destruct (parse_levels (default (JList []) (m !! "asks")));
     [|discriminate]); eauto.
Qed.

Lemma process_orderbook_ok_iff `{!NumberLaws F} (ob : json F) :
  well_shaped ob = true ↔ ∃ out, process_orderbook ob = Ok out.
Proof.
  destruct ob as [ | | | | | |m];
    try (split; [discriminate|intros [? [=]]]).
  cbn [well_shaped]. rewrite andb_true_iff, !parse_levels_ok_iff. split.
  - intros [[bids Hb] [asks Ha]].
    rewrite (process_orderbook_dict m bids asks Hb Ha). cbn zeta.
    unfold metrics_of. destruct (best_bid_ask bids asks) as [bb ba].
    rewrite !buy_avg_fill_price_ok. cbn. eauto.
  - intros [out Hout].
    destruct (process_orderbook_ok_parsed m out Hout) as (? & ? & ? & ?).
    eauto.
Qed.

(** The entry of a mapping is the metrics of its parsed sides, under the
    identity and timestamp [main] reads off the mapping. *)
Lemma process_orderbook_entry (m : gmap string (json F))
    (rs : list (LevelExportRow F)) (r : MetricsRecord F) :
  process_orderbook (JDict m) = Ok (rs, r) →
  ∃ bids asks,
    parse_levels (default (JList []) (m !! "bids")) = Ok bids
    ∧ parse_levels (default (JList []) (m !! "asks")) = Ok asks
    ∧ metrics_of (snapshot_ts r) (token_id r) bids asks = Ok r
    ∧ (m !! "asset_id" = None → m !! "token_id" = None →
       token_id r = py_str (JStr "")).
Proof.
  intros Hr.
  destruct (process_orderbook_ok_parsed m _ Hr) as (bids & asks & Hb & Ha).
  exists bids, asks. split; [exact Hb|]. split; [exact Ha|].
  rewrite (process_orderbook_dict m bids asks Hb Ha) in Hr. cbn zeta in Hr.
  destruct (metrics_of _ _ bids asks) as [r'|] eqn:Hm; [|discriminate].
  cbn in Hr. injection Hr as _ <-.
  destruct (metrics_of_inv _ _ _ _ _ Hm) as (? & ? & ? & _ & _ & _ & Hr').
  cbn zeta in Hr'. split.
  - rewrite Hr' at 1 2. cbn [snapshot_ts token_id]. exact Hm.
  - intros Hasset Htoken. rewrite Hr'. cbn [token_id].
    now rewrite Hasset, Htoken.
Qed.

Lemma main_loop_well_shaped `{!NumberLaws F} (batch : list (json F)) :
  Forall (λ ob, well_shaped ob = true) batch →
  ∀ silver gold_rows,
  ∃ rows entries,
    main_loop batch silver gold_rows = Ok (silver ++ rows, gold_rows ++ entries)
    ∧ Forall2 (λ ob r, ∃ rs, process_orderbook ob = Ok (rs, r))
        batch entries.
Proof.
  induction 1 as [|ob batch Hob _ IH]; intros silver gold_rows.
  - exists [], []. rewrite !app_nil_r. split; [reflexivity|constructor].
  - apply process_orderbook_ok_iff in Hob as [[rs r] Hob].
    destruct (IH (silver ++ rs) (gold_rows ++ [r])) as (rows & es & Hl & Hes).
    exists (rs ++ rows), (r :: es). split.
    + cbn [main_loop]. rewrite Hob. cbn. rewrite Hl.
      now rewrite <- !app_assoc.
    + constructor; eauto.
Qed.

Lemma metrics_of_empty (snap_ts tid : string) :
  metrics_of (F:=F) snap_ts tid [] []
  = Ok (mkMetrics snap_ts tid None None None None None None None None None).
Proof.
  unfold metrics_of. cbn [best_bid_ask fmap list_fmap py_max py_min].
  rewrite !buy_avg_fill_price_unfold.
  unfold no_walk. rewrite !orb_true_r. reflexivity.
Qed.

(** C1, as amended.  On a batch in which every record is a mapping whose
    [bids] and [asks] are each missing, falsy, a list, a string or a
    mapping, the loop of [main] runs to its end and appends one entry per
    record, in order; the body of the loop completes on exactly these
    records; the entry of a record holds the metrics of the levels its
    sides parse to, under the token id [str("")] when the record has no
    identity; a record neither of whose sides yields a level gets an entry
    with every derived field absent; the metric computation on parsed
    levels never raises. *)
Theorem main_loop_rule `{!NumberLaws F} :
  (∀ batch : list (json F),
     Forall (λ ob, well_shaped ob = true) batch →
     ∃ silver gold_rows,
       main_loop batch [] [] = Ok (silver, gold_rows)
       ∧ Forall2 (λ ob r, ∃ rs, process_orderbook ob = Ok (rs, r))
           batch gold_rows)
  ∧ (∀ ob : json F,
       well_shaped ob = true ↔ ∃ out, process_orderbook ob = Ok out)
  ∧ (∀ (m : gmap string (json F)) rs r,
       process_orderbook (JDict m) = Ok (rs, r) →
       ∃ bids asks,
         parse_levels (default (JList []) (m !! "bids")) = Ok bids
         ∧ parse_levels (default (JList []) (m !! "asks")) = Ok asks
         ∧ metrics_of (snapshot_ts r) (token_id r) bids asks = Ok r
         ∧ (m !! "asset_id" = None → m !! "token_id" = None →
            token_id r = py_str (JStr "")))
  ∧ (∀ (m : gmap string (json F)) rs r,
       parse_levels (default (JList []) (m !! "bids")) = Ok [] →
       parse_levels (default (JList []) (m !! "asks")) = Ok [] →
       process_orderbook (JDict m) = Ok (rs, r) →
       derived_absent r)
  ∧ (∀ snap_ts tid (bids asks : list (Level F)),
       ∃ r, metrics_of snap_ts tid bids asks = Ok r).
Proof.
  split_and!.
  - intros batch Hb.
    destruct (main_loop_well_shaped batch Hb [] []) as (rows & es & Hl & Hes).
    eauto.
  - apply process_orderbook_ok_iff.
  - apply process_orderbook_entry.
  - intros m rs r Hb Ha.
    rewrite (process_orderbook_dict m [] [] Hb Ha). cbn zeta.
    rewrite metrics_of_empty. cbn. intros [= _ <-].
    repeat split.
  - intros snap_ts tid bids asks. unfold metrics_of.
    destruct (best_bid_ask bids asks) as [bb ba].
    rewrite !buy_avg_fill_price_ok. cbn. eauto.
Qed.

End Orchestrator.

(** A batch of two records, one without identity and one with unusable
    sides: the loop completes with two entries, and the entry of the second
    has nothing derived. *)
Lemma main_loop_rule_sample :
  ∃ silver gold_rows,
    main_loop [record_no_identity; record_garbage_sides] [] []
    = Ok (silver, gold_rows)
    ∧ length gold_rows = 2%nat
    ∧ ∀ rs r, process_orderbook record_garbage_sides = Ok (rs, r) →
              derived_absent r.
Proof.
  destruct (main_loop_rule (F:=float)) as (Hloop & _ & _ & Habsent & _).
  destruct (Hloop [record_no_identity; record_garbage_sides])
    as (silver & gold_rows & Hl & Hentries).
  - repeat constructor.
  - exists silver, gold_rows. split; [exact Hl|]. split.
    + symmetry. exact (Forall2_length _ _ _ Hentries).
    + intros rs r. apply Habsent; vm_compute; reflexivity.
Defined.

Lemma main_loop_bids_number (rt : Runtime float) :
  main_loop [record_no_identity; record_bids_number] [] [] = Raise TypeError.
Proof. reflexivity. Qed.

Lemma process_orderbook_no_identity (rt : Runtime float) :
  ∃ rs r,
    process_orderbook record_no_identity = Ok (rs, r)
    ∧ token_id r = py_str (JStr "")
    ∧ best_ask r = Some 2%float
    ∧ mid r = Some 2%float
    ∧ depth_1pt r = Some 100%float.
Proof. eexists. eexists. split; [vm_compute; reflexivity|]. repeat split. Qed.

(** C1 as stated fails, whatever the runtime: the batch of
    [record_no_identity] and [record_bids_number] is aborted by the
    TypeError that looping over the number 5 raises, and the entry of
    [record_no_identity], a record without identity, has its best ask,
    midpoint, depth and slippages present. *)
Lemma main_loop_aborts_or_derives :
  ¬ ∃ rt : Runtime float,
      (∃ out,
         main_loop [record_no_identity; record_bids_number] [] [] = Ok out)
      ∨ (∀ rs r,
           process_orderbook record_no_identity = Ok (rs, r) →
           derived_absent r).
Proof.
  intros [rt [[out Hout]|Habs]].
  - rewrite main_loop_bids_number in Hout. discriminate Hout.
  - destruct (process_orderbook_no_identity rt) as (rs & r & Hr & _ & Hba & _).
    destruct (Habs _ _ Hr) as (_ & Hnone & _). congruence.
Qed.

(* ================================================================== *)
(** * Further facts *)

(** A book whose levels all have non-positive prices fills nothing. *)
Lemma greedy_walk_eps_no_positive_price {F : Type} `{Number F}
    (ls : list (Level F)) (r s f : F) :
  Forall (λ l, price l <=! of_Z 0 = true) ls →
  greedy_walk_eps ls r s f = (s, f).
Proof.
  induction 1 as [|l t Hl _ IH]; cbn [greedy_walk_eps]; [reflexivity|].
  now rewrite Hl.
Qed.

Lemma buy_avg_fill_price_no_positive_price {F : Type} `{Number F}
    `{!NumberLaws F} (asks : list (Level F)) (budget : F) :
  Forall (λ l, price l <=! of_Z 0 = true) asks →
  buy_avg_fill_price asks budget = Ok None.
Proof.
  intros Hall. rewrite buy_avg_fill_price_ok.
  destruct (no_walk asks budget); [reflexivity|].
  rewrite greedy_walk_eps_no_positive_price.
  - unfold fill_price. now rewrite zero_le_eps.
  - now rewrite (sorted_perm price asks).
Qed.

(** Objects are mutable: what [store] writes, [load] reads back. *)
Lemma store_load {F : Type} (h : gmap ref (Level F)) (l : ref)
    (old new : Level F) :
  h !! l = Some old →
  (store l new ≫= λ _, load l) h = Some (Ok new, <[l := new]> h).
Proof.
  intros Hl. unfold mbind, M_bind, store, load.
  now rewrite Hl, lookup_insert_eq.
Qed.

(** Under the sample runtime the strings ["nan"] and ["inf"] are numbers
    too, and the level made of them is kept. *)
Lemma parse_levels_words :
  parse_levels (JList [raw_level_words; JNull; raw_level_2_100])
  = Ok [mkLevel nan infinity; mkLevel 2%float 100%float].
Proof. reflexivity. Qed.

(** A level whose price is NaN passes every test of the loop the wrong way
    round: the shares filled are NaN, [NaN <= 1e-12] is false, and the
    result is NaN rather than [None]. *)
Lemma buy_avg_fill_price_nan_level :
  walk (sorted price [mkLevel nan 1%float]) (of_Z 10) (of_Z 0) (of_Z 0)
  = Ok (10%float, nan)
  ∧ buy_avg_fill_price [mkLevel nan 1%float] (of_Z 10) = Ok (Some nan).
Proof. split; vm_compute; reflexivity. Qed.

(* ================================================================== *)
(** * The best prices are extremes *)

Section Extremes.
Context {F : Type} `{Number F} `{!NumberLaws F} `{!OrderLaws F}.
Implicit Types (xs : list F).

Lemma fold_max_spec xs :
  ∀ x, let m := fold_left (λ m y : F, if m <! y then y else m) xs x in
       m ∈ x :: xs ∧ (m = x ∨ x <! m = true)
       ∧ Forall (λ y, m <! y = false) xs.
Proof.
  induction xs as [|y t IH]; intros x; cbn [fold_left].
  - split; [apply list_elem_of_here|]. split; [now left|constructor].
  - destruct (IH (if x <! y then y else x)) as (Hin & Hfrom & Hall).
    destruct (x <! y) eqn:Hxy.
    + split_and!.
      * now apply list_elem_of_further.
      * right. destruct Hfrom as [->|Hym]; [exact Hxy|].
        exact (flt_trans _ _ _ Hxy Hym).
      * constructor; [|exact Hall].
        destruct Hfrom as [->|Hym]; [apply flt_irrefl|now apply flt_asym].
    + split_and!.
      * apply elem_of_cons in Hin as [->|Hin];
          [apply list_elem_of_here|do 2 apply list_elem_of_further; exact Hin].
      * exact Hfrom.
      * constructor; [|exact Hall].
        destruct Hfrom as [->|Hxm]; [exact Hxy|].
        apply not_true_iff_false. intros Hmy.
        now rewrite (flt_trans _ _ _ Hxm Hmy) in Hxy.
Qed.

Lemma fold_min_spec xs :
  ∀ x, let m := fold_left (λ m y : F, if y <! m then y else m) xs x in
       m ∈ x :: xs ∧ (m = x ∨ m <! x = true)
       ∧ Forall (λ y, y <! m = false) xs.
Proof.
  induction xs as [|y t IH]; intros x; cbn [fold_left].
  - split; [apply list_elem_of_here|]. split; [now left|constructor].
  - destruct (IH (if y <! x then y else x)) as (Hin & Hfrom & Hall).
    destruct (y <! x) eqn:Hyx.
    + split_and!.
      * now apply list_elem_of_further.
      * right. destruct Hfrom as [->|Hmy]; [exact Hyx|].
        exact (flt_trans _ _ _ Hmy Hyx).
      * constructor; [|exact Hall].
        destruct Hfrom as [->|Hmy]; [apply flt_irrefl|now apply flt_asym].
    + split_and!.
      * apply elem_of_cons in Hin as [->|Hin];
          [apply list_elem_of_here|do 2 apply list_elem_of_further; exact Hin].
      * exact Hfrom.
      * constructor; [|exact Hall].
        destruct Hfrom as [->|Hmx]; [exact Hyx|].
        apply not_true_iff_false. intros Hym.
        now rewrite (flt_trans _ _ _ Hym Hmx) in Hyx.
Qed.

Lemma py_max_spec xs (m : F) :
  py_max xs = Some m → m ∈ xs ∧ Forall (λ y, m <! y = false) xs.
Proof.
  destruct xs as [|x t]; [discriminate|]. intros [= <-].
  destruct (fold_max_spec t x) as (Hin & Hfrom & Hall). split; [exact Hin|].
  constructor; [|exact Hall].
  destruct Hfrom as [->|Hxm]; [apply flt_irrefl|now apply flt_asym].
Qed.

Lemma py_min_spec xs (m : F) :
  py_min xs = Some m → m ∈ xs ∧ Forall (λ y, y <! m = false) xs.
Proof.
  destruct xs as [|x t]; [discriminate|]. intros [= <-].
  destruct (fold_min_spec t x) as (Hin & Hfrom & Hall). split; [exact Hin|].
  constructor; [|exact Hall].
  destruct Hfrom as [->|Hmx]; [apply flt_irrefl|now apply flt_asym].
Qed.

(** X1. The best bid is the price of some bid level and no bid is priced
    above it, the best ask is the price of some ask level and no ask is
    priced below it, in the comparisons of the code, for every arithmetic
    and every book (a NaN price compares with nothing, and is the best
    price when it comes first); on a side without NaN prices every price
    is [<=] the best bid, respectively [>=] the best ask; and each best
    price is absent exactly when its side is empty. *)
Theorem best_bid_ask_extremes (bids asks : list (Level F)) :
  ((best_bid_ask bids asks).1 = None ↔ bids = [])
  ∧ ((best_bid_ask bids asks).2 = None ↔ asks = [])
  ∧ (∀ bb, (best_bid_ask bids asks).1 = Some bb →
       (∃ l, l ∈ bids ∧ price l = bb)
       ∧ (∀ l, l ∈ bids → bb <! price l = false)
       ∧ (Forall (λ l, is_number (price l) = true) bids →
          ∀ l, l ∈ bids → price l <=! bb = true))
  ∧ (∀ ba, (best_bid_ask bids asks).2 = Some ba →
       (∃ l, l ∈ asks ∧ price l = ba)
       ∧ (∀ l, l ∈ asks → price l <! ba = false)
       ∧ (Forall (λ l, is_number (price l) = true) asks →
          ∀ l, l ∈ asks → ba <=! price l = true)).
Proof.
  unfold best_bid_ask. cbn [fst snd]. split_and!.
  - destruct bids; split; intros; try discriminate; reflexivity.
  - destruct asks; split; intros; try discriminate; reflexivity.
  - intros bb [Hin Hall]%py_max_spec.
    apply list_elem_of_fmap in Hin as (l0 & -> & Hl0).
    rewrite Forall_fmap, Forall_forall in Hall.
    split_and!; [eauto|exact Hall|].
    intros Hnum l Hl. rewrite Forall_forall in Hnum.
    apply fle_total; [now apply Hnum..|]. now apply Hall.
  - intros ba [Hin Hall]%py_min_spec.
    apply list_elem_of_fmap in Hin as (l0 & -> & Hl0).
    rewrite Forall_fmap, Forall_forall in Hall.
    split_and!; [eauto|exact Hall|].
    intros Hnum l Hl. rewrite Forall_forall in Hnum.
    apply fle_total; [now apply Hnum..|]. now apply Hall.
Qed.

End Extremes.

(** In binary64: the scenario's best prices bound their sides, and a NaN
    that comes first is the best bid of its side. *)
Lemma best_bid_ask_extremes_scenario :
  best_bid_ask scenario_bids scenario_asks
  = (Some 0x1.199999999999ap+0%float, Some 0x1.3333333333333p+0%float)
  ∧ (∀ l, l ∈ scenario_bids → price l <=! 0x1.199999999999ap+0%float = true)
  ∧ (∀ l, l ∈ scenario_asks → 0x1.3333333333333p+0%float <=! price l = true)
  ∧ (best_bid_ask [mkLevel nan 1%float; mkLevel 2%float 1%float] []).1
    = Some nan.
Proof.
  destruct (best_bid_ask_extremes scenario_bids scenario_asks)
    as (_ & _ & Hb & Ha).
  split; [reflexivity|].
  destruct (Hb _ eq_refl) as (_ & _ & Hbids).
  destruct (Ha _ eq_refl) as (_ & _ & Hasks).
  split; [apply Hbids; repeat constructor|].
  split; [apply Hasks; repeat constructor|reflexivity].
Defined.

(* ================================================================== *)
(** * The sorted sides *)

Section Stable.
Context {F : Type} `{Number F} `{!NumberLaws F} `{!OrderLaws F}.
Context {A : Type} (key : A → F).

(** X2. On levels whose keys are numbers, what [main] and the simulator
    get from [sorted(..., key=...)] and [sorted(..., key=...,
    reverse=True)]: a rearrangement of the input, in ascending,
    respectively descending, order of the keys, in which the items whose
    keys compare equal keep the order they had in the input. *)
Theorem sorted_stable (l : list A) :
  Forall (λ a, is_number (key a) = true) l →
  (sorted key l ≡ₚ l
   ∧ StronglySorted (λ a b, key a <=! key b = true) (sorted key l)
   ∧ ∀ k, filter (λ a, same_rank (key a) k = true) (sorted key l)
          = filter (λ a, same_rank (key a) k = true) l)
  ∧ (sorted_reverse key l ≡ₚ l
     ∧ StronglySorted (λ a b, key b <=! key a = true) (sorted_reverse key l)
     ∧ ∀ k, filter (λ a, same_rank (key a) k = true) (sorted_reverse key l)
            = filter (λ a, same_rank (key a) k = true) l).
Proof.
  intros Hnum. split; split_and!.
  - apply sorted_perm.
  - now apply sorted_StronglySorted.
  - intros k. apply sorted_same_rank.
  - apply sorted_reverse_perm.
  - now apply sorted_reverse_StronglySorted.
  - intros k. apply sorted_reverse_same_rank.
Qed.

End Stable.

(** Bids at 1.05, 1.10 and 1.10 in binary64: sorted best first, the two at
    1.10 in their input order. *)
Lemma sorted_stable_sample :
  let bids := [mkLevel 0x1.0cccccccccccdp+0%float 200%float;
               mkLevel 0x1.199999999999ap+0%float 50%float;
               mkLevel 0x1.199999999999ap+0%float 7%float] in
  size <$> sorted_reverse price bids = [50%float; 7%float; 200%float]
  ∧ StronglySorted (λ a b, price b <=! price a = true)
      (sorted_reverse price bids).
Proof.
  cbv zeta. split; [reflexivity|].
  refine (proj1 (proj2 (proj2 (sorted_stable price _ _)))).
  repeat constructor.
Defined.

(* ================================================================== *)
(** * The rows of the Silver file *)

Section SilverRows.
Context {F : Type} `{Number F} `{!NumberLaws F} `{!OrderLaws F}.
Context {A : Type} (key : A → F).

Lemma head_insert_by (x : A) (l : list A) :
  head (insert_by key x l)
  = match head l with
    | Some y => if key y <! key x then Some y else Some x
    | None => Some x
    end.
Proof.
  destruct l as [|y t]; [reflexivity|]. cbn [insert_by head].
  now destruct (key y <! key x).
Qed.

(** The minimum of [x :: t] from that of [t]: [x] unless a later item is
    strictly smaller. *)
Lemma fold_min_cons (x : F) (t : list F) :
  Forall (λ y, is_number y = true) (x :: t) →
  fold_left (λ m y : F, if y <! m then y else m) t x
  = match py_min t with
    | Some m' => if m' <! x then m' else x
    | None => x
    end.
Proof.
  intros [Hx Ht]%Forall_cons. induction t as [|y t IH] using rev_ind;
    [reflexivity|].
  apply Forall_app in Ht as [Ht [Hy _]%Forall_cons].
  rewrite fold_left_app. cbn [fold_left]. rewrite (IH Ht).
  destruct t as [|z t']; [reflexivity|].
  cbn [app py_min]. rewrite fold_left_app. cbn [fold_left py_min].
  set (m' := fold_left _ t' z).
  assert (Hm' : is_number m' = true).
  { destruct (py_min_spec (z :: t') m' eq_refl) as [Hin _].
    rewrite Forall_forall in Ht. now apply Ht. }
  destruct (m' <! x) eqn:Hm'x.
  - destruct (y <! m') eqn:Hym'; [|now rewrite Hm'x].
    now rewrite (flt_trans _ _ _ Hym' Hm'x).
  - destruct (y <! m') eqn:Hym'; [reflexivity|]. rewrite Hm'x.
    destruct (y <! x) eqn:Hyx; [|reflexivity]. exfalso.
    apply (fle_total _ _ Hm' Hx) in Hm'x.
    rewrite (flt_fle_trans _ _ _ Hyx Hm'x) in Hym'. discriminate Hym'.
Qed.

Lemma head_sorted_min (l : list A) :
  Forall (λ a, is_number (key a) = true) l →
  key <$> head (sorted key l) = py_min (key <$> l).
Proof.
  induction 1 as [|x t Hx Ht IH]; [reflexivity|].
  change (sorted key (x :: t)) with (insert_by key x (sorted key t)).
  rewrite head_insert_by, fmap_cons. cbn [py_min].
  rewrite fold_min_cons.
  2:{ constructor; [exact Hx|]. now rewrite Forall_fmap. }
  rewrite <- IH. destruct (head (sorted key t)) as [y|]; [|reflexivity].
  cbn [fmap option_fmap option_map]. now destruct (key y <! key x).
Qed.

Lemma last_insert_by (x : A) (l : list A) :
  is_number (key x) = true →
  Forall (λ a, is_number (key a) = true) l →
  StronglySorted (λ a b, key a <=! key b = true) l →
  last (insert_by key x l)
  = match last l with
    | Some m => if key m <! key x then Some x else Some m
    | None => Some x
    end.
Proof.
  intros Hx Hl Hs. induction Hs as [|y t Ht IH Hy]; [reflexivity|].
  apply Forall_cons in Hl as [Hyn Hl]. cbn [insert_by].
  destruct (key y <! key x) eqn:Hyx.
  - rewrite !last_cons, (IH Hl).
    destruct (last t) as [m|]; [|now rewrite Hyx].
    now destruct (key m <! key x).
  - rewrite last_cons.
    assert (Hm : ∃ m, last (y :: t) = Some m ∧ key y <=! key m = true).
    { rewrite last_cons. destruct (last t) as [m|] eqn:Hlast.
      - exists m. split; [reflexivity|]. rewrite Forall_forall in Hy.
        apply Hy. apply last_Some in Hlast as [front ->].
        apply elem_of_app. right. apply list_elem_of_here.
      - exists y. split; [reflexivity|exact Hyn]. }
    destruct Hm as (m & -> & Hym).
    apply (fle_total _ _ Hyn Hx) in Hyx.
    pose proof (fle_trans _ _ _ Hyx Hym) as Hxm.
    destruct (key m <! key x) eqn:Hmx; [|reflexivity].
    apply flt_not_fle in Hmx. congruence.
Qed.

Lemma last_fold_insert_by (t acc : list A) (m : F) :
  Forall (λ a, is_number (key a) = true) t →
  Forall (λ a, is_number (key a) = true) acc →
  StronglySorted (λ a b, key a <=! key b = true) acc →
  key <$> last acc = Some m →
  key <$> last (fold_left (λ acc y, insert_by key y acc) t acc)
  = Some (fold_left (λ m y : F, if m <! y then y else m) (key <$> t) m).
Proof.
  intros Ht. revert acc m.
  induction Ht as [|y t Hy Ht IH]; intros acc m Hacc Hs Hm; [exact Hm|].
  rewrite fmap_cons. cbn [fold_left]. apply IH.
  - rewrite (insert_by_perm key y acc). now constructor.
  - now apply insert_by_StronglySorted.
  - rewrite (last_insert_by y acc Hy Hacc Hs).
    destruct (last acc) as [z|]; [|discriminate Hm].
    injection Hm as <-. now destruct (key z <! key y).
Qed.

Lemma head_sorted_reverse_max (l : list A) :
  Forall (λ a, is_number (key a) = true) l →
  key <$> head (sorted_reverse key l) = py_max (key <$> l).
Proof.
  intros Hl. unfold sorted_reverse.
  rewrite (rev_reverse (sorted key (rev l))), head_reverse.
  destruct l as [|x t]; [reflexivity|].
  apply Forall_cons in Hl as [Hx Ht].
  cbn [rev]. unfold sorted. rewrite foldr_app. cbn [foldr insert_by].
  rewrite fold_left_rev_right.
  rewrite fmap_cons. cbn [py_max].
  apply last_fold_insert_by; [exact Ht|now constructor| |reflexivity].
  repeat constructor.
Qed.

Lemma StronglySorted_take (R : relation A) (n : nat) (l : list A) :
  StronglySorted R l → StronglySorted R (take n l).
Proof.
  intros Hl. rewrite <- (take_drop n l) in Hl.
  now apply StronglySorted_app_1_l in Hl.
Qed.

End SilverRows.

Section SilverRowsOfABook.
Context {F : Type} `{Number F} `{!NumberLaws F} `{!OrderLaws F}.
Context `{Runtime F}.

Lemma export_rows_prices (snap_ts tid : string) (sd : Side)
    (ls : list (Level F)) :
  row_price <$> export_rows snap_ts tid sd ls = price <$> ls.
Proof.
  unfold export_rows. rewrite fmap_imap. apply imap_const.
Qed.

Lemma StronglySorted_fmap_inv {A B : Type} (f : A → B) (R : relation B)
    (l : list A) :
  StronglySorted R (f <$> l) → StronglySorted (λ a b, R (f a) (f b)) l.
Proof.
  induction l as [|x t IH]; [constructor|]. rewrite fmap_cons.
  intros [Hx Ht]%StronglySorted_inv. constructor; [now apply IH|].
  now rewrite Forall_fmap in Ht.
Qed.

Lemma export_rows_sorted (R : relation F) (snap_ts tid : string) (sd : Side)
    (ls : list (Level F)) :
  StronglySorted (λ a b, R (price a) (price b)) ls →
  StronglySorted (λ a b, R (row_price a) (row_price b))
    (export_rows snap_ts tid sd ls).
Proof.
  intros Hls. apply StronglySorted_fmap_inv. rewrite export_rows_prices.
  apply (StronglySorted_fmap price (λ a b, R (price a) (price b)) R);
    [auto|exact Hls].
Qed.

Lemma export_rows_length (snap_ts tid : string) (sd : Side)
    (ls : list (Level F)) :
  length (export_rows snap_ts tid sd ls) = length ls.
Proof. apply length_imap. Qed.

Lemma export_rows_lookup (snap_ts tid : string) (sd : Side)
    (ls : list (Level F)) (i : nat) (row : LevelExportRow F) :
  export_rows snap_ts tid sd ls !! i = Some row →
  row_side row = sd ∧ row_level row = S i ∧ row_token_id row = tid
  ∧ row_snapshot_ts row = snap_ts
  ∧ ls !! i = Some (mkLevel (row_price row) (row_size row)).
Proof.
  unfold export_rows. rewrite list_lookup_imap.
  destruct (ls !! i) as [[p s]|]; [|discriminate].
  intros [= <-]. repeat split.
Qed.

(** X3. What [main] writes to the Silver file for a book none of whose
    parsed levels has a NaN price: the bid rows then the ask rows, at most
    [TOP_LEVELS_PER_SIDE] of each; the rows of a side are numbered 1, 2, ...
    and carry the token id and timestamp of the Gold entry; bid prices
    never rise and ask prices never fall down the rows; and the price of
    row 1 of each side is the best bid, respectively the best ask, of the
    Gold entry (no row exactly when that best price is absent). *)
Theorem silver_rows_rule (m : gmap string (json F))
    (bids asks : list (Level F))
    (rows : list (LevelExportRow F)) (r : MetricsRecord F) :
  parse_levels (default (JList []) (m !! "bids")) = Ok bids →
  parse_levels (default (JList []) (m !! "asks")) = Ok asks →
  Forall (λ l, is_number (price l) = true) bids →
  Forall (λ l, is_number (price l) = true) asks →
  process_orderbook (JDict m) = Ok (rows, r) →
  ∃ bid_rows ask_rows,
    rows = bid_rows ++ ask_rows
    ∧ (length bid_rows ≤ TOP_LEVELS_PER_SIDE)%nat
    ∧ (length ask_rows ≤ TOP_LEVELS_PER_SIDE)%nat
    ∧ (∀ i row, bid_rows !! i = Some row →
         row_side row = bid ∧ row_level row = S i
         ∧ row_token_id row = token_id r
         ∧ row_snapshot_ts row = snapshot_ts r)
    ∧ (∀ i row, ask_rows !! i = Some row →
         row_side row = ask ∧ row_level row = S i
         ∧ row_token_id row = token_id r
         ∧ row_snapshot_ts row = snapshot_ts r)
    ∧ StronglySorted (λ a b, row_price b <=! row_price a = true) bid_rows
    ∧ StronglySorted (λ a b, row_price a <=! row_price b = true) ask_rows
    ∧ row_price <$> head bid_rows = best_bid r
    ∧ row_price <$> head ask_rows = best_ask r.
Proof.
  intros Hb Ha Hnb Hna Hr.
  rewrite (process_orderbook_dict m bids asks Hb Ha) in Hr. cbn zeta in Hr.
  destruct (metrics_of _ _ bids asks) as [r'|] eqn:Hm; [|discriminate].
  cbn [mbind result_bind mret result_ret] in Hr. injection Hr as <- <-.
  destruct (metrics_of_inv _ _ _ _ _ Hm) as (? & ? & ? & _ & _ & _ & Hr').
  cbn zeta in Hr'.
  eexists. eexists. split; [reflexivity|].
  assert (Htid : token_id r' = py_str
            (if truthy (default JNull (m !! "asset_id"))
             then default JNull (m !! "asset_id")
             else py_or (default JNull (m !! "token_id")) (JStr "")))
    by now rewrite Hr'.
  assert (Hts : snapshot_ts r'
            = py_str (py_or (default JNull (m !! "timestamp")) (JStr "")))
    by now rewrite Hr'.
  assert (Hbb : best_bid r' = (best_bid_ask bids asks).1) by now rewrite Hr'.
  assert (Hba : best_ask r' = (best_bid_ask bids asks).2) by now rewrite Hr'.
  clear Hr' Hm. rewrite !export_rows_length, !length_take.
  split; [lia|]. split; [lia|].
  split.
  { intros i row Hrow. apply export_rows_lookup in Hrow.
    rewrite Htid, Hts. tauto. }
  split.
  { intros i row Hrow. apply export_rows_lookup in Hrow.
    rewrite Htid, Hts. tauto. }
  split.
  { apply (export_rows_sorted (λ a b, b <=! a = true)), StronglySorted_take.
    now apply sorted_reverse_StronglySorted. }
  split.
  { apply (export_rows_sorted (λ a b, a <=! b = true)), StronglySorted_take.
    now apply sorted_StronglySorted. }
  rewrite Hbb, Hba. unfold best_bid_ask. cbn [fst snd].
  rewrite <- (head_sorted_reverse_max price bids Hnb).
  rewrite <- (head_sorted_min price asks Hna).
  rewrite !head_lookup, <- !list_lookup_fmap, !export_rows_prices.
  rewrite !list_lookup_fmap, !lookup_take_lt
    by (unfold TOP_LEVELS_PER_SIDE; lia).
  now rewrite <- !head_lookup.
Qed.

End SilverRowsOfABook.

(** The scenario in binary64: five rows, the two bids at 1.10 in their
    input order before the bid at 1.05, then the asks from 1.20 up. *)
Lemma silver_rows_rule_scenario :
  ∃ rows r,
    process_orderbook record_scenario = Ok (rows, r)
    ∧ row_size <$> rows
      = [50%float; 7%float; 200%float; 30%float; 100%float]
    ∧ row_level <$> rows = [1; 2; 3; 1; 2]%nat
    ∧ ∃ bid_rows ask_rows,
        rows = bid_rows ++ ask_rows
        ∧ row_price <$> head bid_rows = best_bid r
        ∧ row_price <$> head ask_rows = best_ask r.
Proof.
  eexists. eexists.
  assert (Hr : process_orderbook record_scenario = Ok (_, _))
    by (vm_compute; reflexivity).
  split; [exact Hr|]. split; [reflexivity|]. split; [reflexivity|].
  assert (Hb : ∃ bids,
             parse_levels (default (JList [])
                             (record_scenario_fields !! "bids")) = Ok bids
             ∧ Forall (λ l, is_number (price l) = true) bids)
    by (eexists; split; [vm_compute; reflexivity|repeat constructor]).
  assert (Ha : ∃ asks,
             parse_levels (default (JList [])
                             (record_scenario_fields !! "asks")) = Ok asks
             ∧ Forall (λ l, is_number (price l) = true) asks)
    by (eexists; split; [vm_compute; reflexivity|repeat constructor]).
  destruct Hb as (bids & Hb & Hnb), Ha as (asks & Ha & Hna).
  destruct (silver_rows_rule record_scenario_fields bids asks _ _
              Hb Ha Hnb Hna Hr)
    as (bid_rows & ask_rows & Happ & _ & _ & _ & _ & _ & _ & Hbb & Hba).
  exists bid_rows, ask_rows. auto.
Defined.

(* ================================================================== *)
(** * One-sided and empty books *)

Section OneSided.
Context {F : Type} `{Number F}.

(** X9. In the Gold entry of a book with no bids or no asks the spread and
    the score are absent; with no asks the best ask and the three slippages
    are absent and the midpoint is the best bid; with no bids the best bid
    is absent and the midpoint is the best ask. *)
Theorem one_sided_book (snap_ts tid : string) (bids asks : list (Level F))
    (r : MetricsRecord F) :
  metrics_of snap_ts tid bids asks = Ok r →
  (bids = [] ∨ asks = [] → spread r = None ∧ score r = None)
  ∧ (asks = [] →
       best_ask r = None ∧ mid r = best_bid r
       ∧ slippage_buy_10 r = None ∧ slippage_buy_50 r = None
       ∧ slippage_buy_200 r = None)
  ∧ (bids = [] → best_bid r = None ∧ mid r = best_ask r).
Proof.
  intros Hr.
  destruct (metrics_of_inv _ _ _ _ _ Hr)
    as (a10 & a50 & a200 & H10 & H50 & H200 & ->).
  cbn [spread score best_ask best_bid mid slippage_buy_10 slippage_buy_50
         slippage_buy_200].
  split_and!.
  - intros [->| ->]; unfold best_bid_ask; cbn [fst snd fmap list_fmap py_max py_min].
    + split; [reflexivity|].
      now destruct (calc_depth _ _ _ _).
    + destruct (py_max (price <$> bids)); cbn [calc_spread]; split;
        try reflexivity; now destruct (calc_depth _ _ _ _).
  - intros ->. rewrite buy_avg_fill_price_unfold in H10, H50, H200.
    unfold no_walk in H10, H50, H200. rewrite orb_true_r in H10, H50, H200.
    injection H10 as <-. injection H50 as <-. injection H200 as <-.
    unfold best_bid_ask. cbn [fst snd fmap list_fmap py_min].
    split; [reflexivity|]. split; [|repeat split].
    now destruct (py_max (price <$> bids)).
  - intros ->. unfold best_bid_ask. cbn [fst snd fmap list_fmap py_max].
    split; [reflexivity|]. now destruct (py_min (price <$> asks)).
Qed.

End OneSided.

(* ================================================================== *)
(** * Batches and side fields of every shape *)

Section Batches.
Context {F : Type} `{Number F} `{Runtime F}.

Lemma main_loop_app (a b : list (json F)) :
  ∀ silver gold_rows,
    main_loop (a ++ b) silver gold_rows
    = main_loop a silver gold_rows ≫= λ out, main_loop b out.1 out.2.
Proof.
  induction a as [|ob a IH]; intros silver gold_rows; [reflexivity|].
  cbn [app main_loop]. destruct (process_orderbook ob) as [[rs r]|e];
    [|reflexivity].
  cbn [mbind result_bind]. apply IH.
Qed.

Lemma main_loop_length (batch : list (json F)) :
  ∀ silver gold_rows silver' gold_rows',
    main_loop batch silver gold_rows = Ok (silver', gold_rows') →
    length gold_rows' = (length gold_rows + length batch)%nat
    ∧ gold_rows `prefix_of` gold_rows' ∧ silver `prefix_of` silver'.
Proof.
  induction batch as [|ob t IH]; intros s g s' g'; cbn [main_loop].
  - intros [= <- <-]. cbn. split; [lia|]. split; reflexivity.
  - destruct (process_orderbook ob) as [[rs r]|e]; [|discriminate].
    cbn [mbind result_bind]. intros Ht. apply IH in Ht as (Hlen & Hg & Hs).
    rewrite length_app in Hlen. cbn in Hlen |- *. split; [lia|]. split.
    + etrans; [|exact Hg]. now apply prefix_app_r.
    + etrans; [|exact Hs]. now apply prefix_app_r.
Qed.

(** X10. The loop of [main] over a batch made of two parts is the loop
    over the first part followed by the loop over the second from where the
    first ended; a run that completes has appended exactly one Gold entry
    per record and kept what was there before; and when the records before
    [ob] are fine and the body raises on [ob], the whole loop raises that
    exception, whatever follows [ob]. *)
Theorem main_loop_batches :
  (∀ (a b : list (json F)) silver gold_rows,
     main_loop (a ++ b) silver gold_rows
     = main_loop a silver gold_rows ≫= λ out, main_loop b out.1 out.2)
  ∧ (∀ (batch : list (json F)) silver gold_rows silver' gold_rows',
       main_loop batch silver gold_rows = Ok (silver', gold_rows') →
       length gold_rows' = (length gold_rows + length batch)%nat
       ∧ gold_rows `prefix_of` gold_rows' ∧ silver `prefix_of` silver')
  ∧ (∀ (a b : list (json F)) ob e silver gold_rows out,
       main_loop a silver gold_rows = Ok out →
       process_orderbook ob = Raise e →
       main_loop (a ++ ob :: b) silver gold_rows = Raise e).
Proof.
  split_and!.
  - apply main_loop_app.
  - apply main_loop_length.
  - intros a b ob e silver gold_rows out Ha Hob.
    rewrite main_loop_app, Ha. cbn [mbind result_bind main_loop].
    now rewrite Hob.
Qed.

Lemma parse_loop_not_levels (xs : list (json F)) :
  Forall (λ x, match x with JDict _ => False | _ => True end) xs →
  ∀ out, parse_loop xs out = out.
Proof.
  induction 1 as [|x t Hx _ IH]; intros out; cbn [parse_loop];
    [reflexivity|].
  destruct x; try (exfalso; exact Hx); apply IH.
Qed.

(** X11. What [parse_levels] does with a side field of each JSON type: a
    list gives the levels of its records; a string or a mapping, whose items
    are strings, gives no level; [null], [false], 0 and 0.0 give no level;
    [true] and every other number raise TypeError. *)
Theorem parse_levels_by_type (v : json F) :
  match v with
  | JList l => parse_levels v = Ok (omap (level_of_record (F:=F)) l)
  | JStr _ | JDict _ | JNull => parse_levels v = Ok []
  | JBool b => parse_levels v = if b then Raise TypeError else Ok []
  | JInt n => parse_levels v = if (n =? 0)%Z then Ok [] else Raise TypeError
  | JFloat x => parse_levels v = if is_zero x then Ok [] else Raise TypeError
  end.
Proof.
  destruct v as [ |b|n|x|s|l|m]; unfold parse_levels;
    try (unfold py_or; cbn [truthy]).
  - reflexivity.
  - now destruct b.
  - now destruct (n =? 0)%Z.
  - now destruct (is_zero x).
  - destruct s as [|c s]; [reflexivity|]. cbn [py_iter mbind result_bind mret result_ret].
    rewrite parse_loop_not_levels; [reflexivity|].
    apply Forall_fmap, Forall_true. now intros ?.
  - destruct l; cbn [py_iter mbind result_bind mret result_ret];
      now rewrite parse_loop_omap.
  - destruct (map_to_list m) eqn:Hm; [reflexivity|].
    cbn [py_iter mbind result_bind mret result_ret].
    rewrite parse_loop_not_levels; [reflexivity|].
    apply Forall_fmap, Forall_true. now intros ?.
Qed.

End Batches.

(** The asks of the scenario alone: midpoint 1.20, no spread, no score. *)
Lemma one_sided_book_scenario :
  ∃ r, metrics_of "" "" [] scenario_asks = Ok r
       ∧ best_bid r = None ∧ mid r = best_ask r
       ∧ spread r = None ∧ score r = None
       ∧ mid r = Some 0x1.3333333333333p+0%float.
Proof.
  eexists.
  assert (Hr : metrics_of "" "" [] scenario_asks = Ok _)
    by (vm_compute; reflexivity).
  destruct (one_sided_book _ _ _ _ _ Hr) as (Hsp & _ & Hb).
  destruct (Hsp (or_introl eq_refl)) as [? ?].
  destruct (Hb eq_refl) as [? ?].
  split; [exact Hr|]. repeat split; assumption.
Defined.

(* ================================================================== *)
(** * The latest snapshot is the greatest path *)

Section StringOrder.

Lemma ascii_compare_lt_trans (a b c : Ascii.ascii) :
  Ascii.compare a b = Lt → Ascii.compare b c = Lt → Ascii.compare a c = Lt.
Proof.
  unfold Ascii.compare. rewrite !N.compare_lt_iff. apply N.lt_trans.
Qed.

Lemma string_compare_lt_trans (s1 : string) :
  ∀ s2 s3, String.compare s1 s2 = Lt → String.compare s2 s3 = Lt →
           String.compare s1 s3 = Lt.
Proof.
  induction s1 as [|a s1 IH]; intros [|b s2] [|c s3]; cbn;
    try discriminate; try reflexivity.
  destruct (Ascii.compare a b) eqn:Hab; try discriminate;
    destruct (Ascii.compare b c) eqn:Hbc; try discriminate; intros H12 H23.
  - apply Ascii.compare_eq_iff in Hab as ->. rewrite Hbc. now apply (IH s2).
  - apply Ascii.compare_eq_iff in Hab as ->. now rewrite Hbc.
  - apply Ascii.compare_eq_iff in Hbc as <-. now rewrite Hab.
  - now rewrite (ascii_compare_lt_trans _ _ _ Hab Hbc).
Qed.

Lemma string_compare_refl (s : string) : String.compare s s = Eq.
Proof.
  destruct (String.compare s s) eqn:Hs; [reflexivity| |];
    pose proof (String.compare_antisym s s) as Ha; rewrite Hs in Ha;
    discriminate Ha.
Qed.

(** [path_lt] is a strict total order. *)
Lemma path_lt_trans (a b c : string * string) :
  path_lt a b = true → path_lt b c = true → path_lt a c = true.
Proof.
  unfold path_lt, String.ltb.
  destruct (String.compare a.1 b.1) eqn:Hab; try discriminate;
    destruct (String.compare b.1 c.1) eqn:Hbc; try discriminate.
  - apply String.compare_eq_iff in Hab as ->. rewrite Hbc.
    destruct (String.compare a.2 b.2) eqn:H1; try discriminate.
    destruct (String.compare b.2 c.2) eqn:H2; try discriminate.
    now rewrite (string_compare_lt_trans _ _ _ H1 H2).
  - apply String.compare_eq_iff in Hab as ->. now rewrite Hbc.
  - apply String.compare_eq_iff in Hbc as <-. now rewrite Hab.
  - now rewrite (string_compare_lt_trans _ _ _ Hab Hbc).
Qed.

Lemma path_lt_total (a b : string * string) :
  path_lt a b = false → path_lt b a = false → a = b.
Proof.
  unfold path_lt, String.ltb. rewrite (String.compare_antisym b.1 a.1).
  rewrite (String.compare_antisym b.2 a.2).
  destruct (String.compare a.1 b.1) eqn:H1; cbn; try discriminate.
  destruct (String.compare a.2 b.2) eqn:H2; cbn; try discriminate.
  intros _ _. apply String.compare_eq_iff in H1, H2.
  destruct a, b; cbn in H1, H2; congruence.
Qed.

Lemma path_lt_asym (a b : string * string) :
  path_lt a b = true → path_lt b a = false.
Proof.
  unfold path_lt, String.ltb. rewrite (String.compare_antisym b.1 a.1).
  rewrite (String.compare_antisym b.2 a.2).
  destruct (String.compare a.1 b.1); cbn; try discriminate; try reflexivity.
  now destruct (String.compare a.2 b.2).
Qed.

End StringOrder.

Section SortedLt.
Context {A : Type} (lt : A → A → bool).
Hypothesis lt_trans : ∀ a b c, lt a b = true → lt b c = true → lt a c = true.
Hypothesis lt_asym : ∀ a b, lt a b = true → lt b a = false.
Hypothesis lt_total : ∀ a b, lt a b = false → lt b a = false → a = b.

Lemma insert_lt_perm (x : A) (l : list A) : insert_lt lt x l ≡ₚ x :: l.
Proof.
  induction l as [|y t IH]; cbn [insert_lt]; [reflexivity|].
  destruct (lt y x); [|reflexivity]. rewrite IH. apply perm_swap.
Qed.

Lemma sorted_lt_perm (l : list A) : sorted_lt lt l ≡ₚ l.
Proof.
  unfold sorted_lt. induction l as [|x t IH]; cbn [foldr]; [reflexivity|].
  now rewrite insert_lt_perm, IH.
Qed.

(** No item is followed, however far, by a smaller one. *)
Lemma not_lt_trans (a b c : A) :
  lt b a = false → lt c b = false → lt c a = false.
Proof.
  intros Hba Hcb. destruct (lt c a) eqn:Hca; [|reflexivity].
  destruct (lt a b) eqn:Hab.
  - now rewrite (lt_trans _ _ _ Hca Hab) in Hcb.
  - rewrite <- (lt_total _ _ Hab Hba) in Hcb. congruence.
Qed.

Lemma insert_lt_sorted (x : A) (l : list A) :
  StronglySorted (λ a b, lt b a = false) l →
  StronglySorted (λ a b, lt b a = false) (insert_lt lt x l).
Proof.
  induction 1 as [|y t Ht IH Hy]; cbn [insert_lt].
  - repeat constructor.
  - destruct (lt y x) eqn:Hyx.
    + constructor; [exact IH|]. rewrite insert_lt_perm.
      constructor; [now apply lt_asym|exact Hy].
    + constructor; [now constructor|]. constructor; [exact Hyx|].
      eapply Forall_impl; [exact Hy|]. intros z Hz. cbn beta in Hz.
      now apply (not_lt_trans x y z).
Qed.

Lemma sorted_lt_sorted (l : list A) :
  StronglySorted (λ a b, lt b a = false) (sorted_lt lt l).
Proof.
  unfold sorted_lt. induction l as [|x t IH]; cbn [foldr]; [constructor|].
  now apply insert_lt_sorted.
Qed.

Lemma lt_irrefl (a : A) : lt a a = false.
Proof.
  destruct (lt a a) eqn:Ha; [|reflexivity].
  now rewrite (lt_asym _ _ Ha) in Ha.
Qed.

(** The last item of the sorted list is in the list and nothing in the
    list is greater. *)
Lemma last_sorted_lt (l : list A) (m : A) :
  last (sorted_lt lt l) = Some m →
  m ∈ l ∧ ∀ c, c ∈ l → lt m c = false.
Proof.
  intros Hlast.
  pose proof (sorted_lt_sorted l) as Hss. pose proof (sorted_lt_perm l) as Hp.
  apply last_Some in Hlast as [front Hfront]. rewrite Hfront in Hss, Hp.
  split.
  - rewrite <- Hp. apply elem_of_app. right. apply list_elem_of_here.
  - intros c Hc. rewrite <- Hp in Hc. apply elem_of_app in Hc as [Hc|Hc].
    + apply StronglySorted_app in Hss as (Hall & _ & _).
      apply Hall; [exact Hc|apply list_elem_of_here].
    + apply list_elem_of_singleton in Hc as ->. apply lt_irrefl.
Qed.

Lemma last_sorted_lt_None (l : list A) :
  last (sorted_lt lt l) = None ↔ l = [].
Proof.
  rewrite last_None. split.
  - intros Hs. pose proof (sorted_lt_perm l) as Hp. rewrite Hs in Hp.
    now apply Permutation_nil_l in Hp.
  - now intros ->.
Qed.

Lemma last_sorted_lt_perm (l l' : list A) :
  l ≡ₚ l' → last (sorted_lt lt l) = last (sorted_lt lt l').
Proof.
  intros Hp.
  destruct (last (sorted_lt lt l)) as [m|] eqn:Hm,
           (last (sorted_lt lt l')) as [m'|] eqn:Hm'.
  - apply last_sorted_lt in Hm as [Hin Hmax], Hm' as [Hin' Hmax'].
    f_equal. apply lt_total.
    + apply Hmax. now rewrite Hp.
    + apply Hmax'. now rewrite <- Hp.
  - apply last_sorted_lt_None in Hm'. subst l'.
    apply Permutation_nil_r in Hp. subst l. discriminate Hm.
  - apply last_sorted_lt_None in Hm. subst l.
    apply Permutation_nil_l in Hp. subst l'. discriminate Hm'.
  - reflexivity.
Qed.

End SortedLt.

Lemma elem_of_time_dirs (date : string) (children : list (string * node))
    (p : string * string) :
  p ∈ time_dirs date children
  ↔ p.1 = date ∧ ∃ sub, (p.2, Dir sub) ∈ children.
Proof.
  unfold time_dirs. rewrite list_elem_of_omap. split.
  - intros ([t [|sub]] & Hin & Hp); cbn in Hp; [discriminate|].
    injection Hp as <-. cbn. eauto.
  - intros [Hd [sub Hin]]. exists (p.2, Dir sub). split; [exact Hin|].
    cbn. destruct p; cbn in *. now subst.
Qed.

Lemma elem_of_snapshot_candidates (entries : list (string * node))
    (p : string * string) :
  p ∈ snapshot_candidates entries
  ↔ ∃ children sub,
      (p.1, Dir children) ∈ entries ∧ (p.2, Dir sub) ∈ children.
Proof.
  unfold snapshot_candidates. rewrite list_elem_of_bind. split.
  - intros ([d [|children]] & Hp & Hin); cbn in Hp.
    + now apply elem_of_nil in Hp.
    + apply elem_of_time_dirs in Hp as [<- [sub Hsub]]. eauto.
  - intros (children & sub & Hd & Hsub). exists (p.1, Dir children).
    split; [|exact Hd]. cbn. apply elem_of_time_dirs. eauto.
Qed.

(** X12. [find_latest_snapshot] raises FileNotFoundError when the base
    directory is missing or holds no directory inside a directory;
    otherwise it returns [base/date/time] for an existing directory [time]
    inside an existing directory [date], and no such pair is greater in the
    order of paths; the answer does not depend on the order in which the
    directories are listed. *)
Theorem find_latest_snapshot_rule :
  find_latest_snapshot None = inl FileNotFoundError
  ∧ (∀ entries,
       find_latest_snapshot (Some (Dir entries)) = inl FileNotFoundError
       ↔ ¬ ∃ date children time sub,
             (date, Dir children) ∈ entries ∧ (time, Dir sub) ∈ children)
  ∧ (∀ entries p,
       find_latest_snapshot (Some (Dir entries)) = inr p →
       (∃ children sub,
          (p.1, Dir children) ∈ entries ∧ (p.2, Dir sub) ∈ children)
       ∧ ∀ date children time sub,
           (date, Dir children) ∈ entries → (time, Dir sub) ∈ children →
           path_lt p (date, time) = false)
  ∧ (∀ entries entries',
       entries ≡ₚ entries' →
       find_latest_snapshot (Some (Dir entries))
       = find_latest_snapshot (Some (Dir entries'))).
Proof.
  split_and!.
  - reflexivity.
  - intros entries. cbn [find_latest_snapshot].
    destruct (last _) as [p|] eqn:Hlast.
    + split; [discriminate|]. intros Hno. exfalso. apply Hno.
      apply (last_sorted_lt _ path_lt_trans path_lt_asym path_lt_total)
        in Hlast as [Hin _].
      apply elem_of_snapshot_candidates in Hin as (children & sub & ? & ?).
      eauto 8.
    + split; [intros _|reflexivity].
      apply (last_sorted_lt_None path_lt) in Hlast.
      intros (date & children & time & sub & Hd & Ht).
      assert (Hin : (date, time) ∈ snapshot_candidates entries)
        by (apply elem_of_snapshot_candidates; eauto).
      rewrite Hlast in Hin. now apply elem_of_nil in Hin.
  - intros entries p. cbn [find_latest_snapshot].
    destruct (last _) as [q|] eqn:Hlast; [|discriminate]. intros [= ->].
    apply (last_sorted_lt _ path_lt_trans path_lt_asym path_lt_total)
      in Hlast as [Hin Hmax].
    split; [now apply elem_of_snapshot_candidates|].
    intros date children time sub Hd Ht. apply Hmax.
    apply elem_of_snapshot_candidates. eauto.
  - intros entries entries' Hp. cbn [find_latest_snapshot].
    rewrite (last_sorted_lt_perm _ path_lt_trans path_lt_asym path_lt_total
               (snapshot_candidates entries) (snapshot_candidates entries'));
      [reflexivity|].
    unfold snapshot_candidates. now rewrite Hp.
Qed.

(** On [bronze_sample] the latest snapshot is 2024-05-02/093000, not the
    later time of the day before. *)
Lemma find_latest_snapshot_sample :
  find_latest_snapshot (Some bronze_sample) = inr ("2024-05-02", "093000").
Proof. reflexivity. Qed.

(* ================================================================== *)
(** * Batches *)

Section Chunked.
Context {A : Type}.
Local Open Scope nat_scope.

Lemma chunked_pos (items : list A) (n : nat) :
  0 < n →
  chunked items (Z.of_nat n)
  = Ok ((λ k, take n (drop (k * n) items))
          <$> seq 0 (match length items with 0 => 0 | S m => S (m / n) end)).
Proof.
  intros Hn. unfold chunked, py_range.
  destruct (Z.eqb_spec (Z.of_nat n) 0) as [?|_]; [lia|].
  destruct (Z.ltb_spec (Z.of_nat n) 0) as [?|_]; [lia|].
  cbn [mbind result_bind]. rewrite Nat2Z.id. f_equal.
  rewrite <- list_fmap_compose. apply list_fmap_ext. intros _ k _. cbn.
  unfold py_slice. f_equal. lia.
Qed.

Lemma chunks_cons (n : nat) (x : A) (l : list A) :
  0 < n →
  (λ k, take n (drop (k * n) (x :: l)))
    <$> seq 0 (S (length l / n))
  = take n (x :: l)
    :: ((λ k, take n (drop (k * n) (drop n (x :: l))))
          <$> seq 0 (match length (drop n (x :: l)) with
                     | 0 => 0
                     | S m => S (m / n)
                     end)).
Proof.
  intros Hn. cbn [seq fmap list_fmap]. f_equal.
  rewrite <- fmap_S_seq, <- list_fmap_compose.
  assert (Hc : length l / n
               = match length (drop n (x :: l)) with
                 | 0 => 0
                 | S m => S (m / n)
                 end).
  { rewrite length_drop. cbn [length].
    destruct (decide (length l < n)) as [Hlt|Hge].
    - replace (S (length l) - n) with 0 by lia. now apply Nat.div_small.
    - replace (S (length l) - n) with (S (length l - n)) by lia.
      replace (length l) with ((length l - n) + 1 * n) at 1 by lia.
      rewrite Nat.div_add by lia. lia. }
  rewrite <- Hc. apply list_fmap_ext. intros _ k _. cbn [compose].
  rewrite drop_drop. f_equal; f_equal; lia.
Qed.

(** Reasoning on the batches follows the list, [n] items at a time. *)
Lemma chunked_ind (n : nat) (P : list A → list (list A) → Prop) :
  0 < n →
  P [] [] →
  (∀ x l cs, chunked (drop n (x :: l)) (Z.of_nat n) = Ok cs →
             P (drop n (x :: l)) cs → P (x :: l) (take n (x :: l) :: cs)) →
  ∀ items, ∃ cs, chunked items (Z.of_nat n) = Ok cs ∧ P items cs.
Proof.
  intros Hn Hnil Hcons items.
  induction items as [items IH] using (induction_ltof1 _ (@length A)).
  unfold ltof in IH. rewrite (chunked_pos _ _ Hn).
  destruct items as [|x l]; [now exists []|].
  cbn [length]. rewrite (chunks_cons _ _ _ Hn).
  destruct (IH (drop n (x :: l))) as (cs & Hcs & HP).
  { rewrite length_drop. cbn [length]. lia. }
  rewrite (chunked_pos _ _ Hn) in Hcs. injection Hcs as Hcs.
  rewrite Hcs. eexists; split; [reflexivity|].
  apply Hcons; [|exact HP]. rewrite (chunked_pos _ _ Hn). now rewrite Hcs.
Qed.

(** The batches of a positive size, put end to end, are the items. *)
Lemma chunked_batches (items : list A) (n : nat) :
  0 < n →
  ∃ cs, chunked items (Z.of_nat n) = Ok cs
        ∧ concat cs = items
        ∧ Forall (λ c : list A, 0 < length c ≤ n) cs.
Proof.
  intros Hn.
  destruct (chunked_ind n (λ l cs,
              concat cs = l ∧ Forall (λ c : list A, 0 < length c ≤ n) cs)
              Hn) with (items := items) as (cs & Hcs & Hcat & Hlen).
  - split; [reflexivity|constructor].
  - intros x l cs _ (Hcat & Hlen). split.
    + cbn [concat]. rewrite Hcat. apply take_drop.
    + constructor; [|exact Hlen]. rewrite length_take. cbn [length]. lia.
  - eauto.
Qed.

(** X13. [chunked] refuses a batch size of zero (ValueError, from [range])
    and, for a negative size, silently returns no batch at all, whatever
    the items; for a positive size the batches put end to end are the items,
    in order, no batch is empty or longer than the size, every batch but the
    last has exactly the size, and no items give no batch. *)
Theorem chunked_rule (items : list A) (size : Z) :
  match (size ?= 0)%Z with
  | Eq => chunked items size = Raise ValueError
  | Lt => chunked items size = Ok []
  | Gt =>
      ∃ cs, chunked items size = Ok cs
            ∧ concat cs = items
            ∧ Forall (λ c, 0 < length c ≤ Z.to_nat size) cs
            ∧ (∀ i c, cs !! i = Some c → S i < length cs →
                      length c = Z.to_nat size)
            ∧ (cs = [] ↔ items = [])
  end.
Proof.
  destruct (Z.compare_spec size 0) as [->|Hneg|Hpos].
  - reflexivity.
  - unfold chunked, py_range.
    destruct (Z.eqb_spec size 0) as [?|_]; [lia|].
    destruct (Z.ltb_spec size 0) as [_|?]; [reflexivity|lia].
  - remember (Z.to_nat size) as n eqn:Hsize.
    assert (Hn : 0 < n) by lia.
    assert (size = Z.of_nat n) as -> by lia. clear Hsize Hpos.
    apply (chunked_ind n (λ l cs,
             concat cs = l
             ∧ Forall (λ c, 0 < length c ≤ n) cs
             ∧ (∀ i c, cs !! i = Some c → S i < length cs → length c = n)
             ∧ (cs = [] ↔ l = [])) Hn).
    + split_and!; [reflexivity|constructor| |done].
      intros i c Hi. now rewrite lookup_nil in Hi.
    + intros x l cs _ (Hcat & Hlen & Hfull & Hnil). split_and!.
      * cbn [concat]. rewrite Hcat. apply take_drop.
      * constructor; [|exact Hlen]. rewrite length_take. cbn [length]. lia.
      * intros [|i] c Hi Hlast.
        -- injection Hi as <-. rewrite length_take.
           destruct cs as [|c' cs']; [cbn in Hlast; lia|].
           assert (Hne : drop n (x :: l) ≠ [])
             by (intros Hd; apply Hnil in Hd; discriminate Hd).
           assert (length (drop n (x :: l)) ≠ 0)
             by (now destruct (drop n (x :: l))).
           rewrite length_drop in *. lia.
        -- cbn in Hi, Hlast. apply (Hfull i c Hi). lia.
      * split; discriminate.
Qed.

End Chunked.

(* ================================================================== *)
(** * The markets kept *)

Section PickTop.
Context {F : Type} `{Number F} `{Runtime F} `{Decoder F}.

Lemma cleaned_market_dict (m : gmap string (json F)) (toks : list string) :
  ∃ c, cleaned_market (JDict m) toks = Ok (JDict c)
       ∧ c !! "clobTokenIds" = Some (JList (JStr <$> toks))
       ∧ c !! "volumeNum" = Some (default JNull (m !! "volumeNum"))
       ∧ c !! "market_id" = Some (default JNull (m !! "id")).
Proof. eexists. split; [reflexivity|]. split_and!; reflexivity. Qed.

Lemma pick_market_not_dict (x : json F) :
  (∀ m, x ≠ JDict m) → pick_market x = Raise AttributeError.
Proof. intros Hx. destruct x; try reflexivity. now destruct (Hx m). Qed.

Lemma clob_token_ids_list_inv (v : json F) :
  clob_token_ids_list v ≠ [] →
  ∃ xs, xs ≠ [] ∧ clob_token_ids_list v = py_str <$> xs
        ∧ (v = JList xs ∨ ∃ s, v = JStr s ∧ json_loads s = Some (JList xs)).
Proof.
  unfold clob_token_ids_list, safe_json_loads. intros Hne.
  destruct v as [| | | |s|xs|]; try (now destruct Hne).
  - destruct (json_loads s) as [[| | | | |xs|]|] eqn:Hs;
      try (now destruct Hne).
    exists xs. split_and!; [now intros ->|reflexivity|eauto].
  - exists xs. split_and!; [now intros ->|reflexivity|eauto].
Qed.

Lemma clob_token_ids_list_tradeable (m : gmap string (json F))
    (xs : list (json F)) :
  tradeable m xs →
  clob_token_ids_list (default JNull (m !! "clobTokenIds")) = py_str <$> xs.
Proof.
  intros (_ & _ & _ & _ & [Ht|(s & Ht & Hs)]); rewrite Ht;
    unfold clob_token_ids_list, safe_json_loads; cbn [default from_option id];
    [reflexivity|].
  now rewrite Hs.
Qed.

(** The body keeps exactly the tradeable markets. *)
Lemma pick_market_tradeable (m : gmap string (json F)) (xs : list (json F)) :
  tradeable m xs →
  ∃ c, cleaned_market (JDict m) (py_str <$> xs) = Ok c
       ∧ pick_market (JDict m) = Ok (Some c).
Proof.
  intros Ht. pose proof (clob_token_ids_list_tradeable m xs Ht) as Htok.
  destruct Ht as ((e & He & Hte) & Hc & Ha & Hxs & _).
  destruct (cleaned_market_dict m (py_str <$> xs)) as (c & Hcm & _).
  exists (JDict c). split; [exact Hcm|].
  unfold pick_market. rewrite !dict_get_dict, He, Ha.
  cbn [default from_option id mbind result_bind]. rewrite Hte. cbn [negb is_True].
  destruct (is_True (default JNull (m !! "closed"))) eqn:Hcl.
  { destruct (m !! "closed") as [[|[]| | | | |]|]; try discriminate Hcl.
    now destruct Hc. }
  rewrite Htok. destruct xs as [|x xs']; [now destruct Hxs|].
  cbn [fmap list_fmap length Nat.eqb]. fold (@fmap list _ _ _ py_str xs').
  change (py_str x :: (py_str <$> xs')) with (py_str <$> (x :: xs')).
  now rewrite Hcm.
Qed.

Lemma pick_market_Some (m : gmap string (json F)) (c : json F) :
  pick_market (JDict m) = Ok (Some c) →
  ∃ xs, tradeable m xs ∧ cleaned_market (JDict m) (py_str <$> xs) = Ok c.
Proof.
  unfold pick_market. rewrite !dict_get_dict. cbn [mbind result_bind].
  destruct (truthy (default (JBool false) (m !! "enableOrderBook")))
    eqn:He; [|discriminate].
  cbn [negb].
  destruct (is_True (default JNull (m !! "closed"))) eqn:Hc; [discriminate|].
  destruct (is_True (default JNull (m !! "active"))) eqn:Ha; [|discriminate].
  cbn [negb].
  destruct (length _ =? 0)%nat eqn:Hlen; [discriminate|].
  apply Nat.eqb_neq in Hlen.
  destruct (clob_token_ids_list_inv (default JNull (m !! "clobTokenIds")))
    as (xs & Hxs & Htok & Hsrc).
  { intros Hnil. now rewrite Hnil in Hlen. }
  rewrite Htok. intros Hrun. exists xs. split.
  - split_and!.
    + destruct (m !! "enableOrderBook") as [e|]; [eauto|discriminate He].
    + intros Hcl. now rewrite Hcl in Hc.
    + destruct (m !! "active") as [[|[]| | | | |]|]; try discriminate Ha.
      reflexivity.
    + exact Hxs.
    + destruct (m !! "clobTokenIds") as [v|] eqn:Hv.
      * cbn [default from_option id] in Hsrc.
        destruct Hsrc as [->|(s & -> & Hs)]; [now left|right; eauto].
      * cbn [default from_option id] in Hsrc. destruct Hsrc as [?|(s & ? & _)]; discriminate.
  - destruct (cleaned_market (JDict m) (py_str <$> xs)) as [c'|e'];
      [|discriminate Hrun].
    now injection Hrun as ->.
Qed.

Lemma pick_market_dict_ok (m : gmap string (json F)) :
  ∃ r, pick_market (JDict m) = Ok r.
Proof.
  unfold pick_market. rewrite !dict_get_dict. cbn [mbind result_bind].
  destruct (truthy _); [|eauto].
  destruct (is_True (default JNull (m !! "closed"))); [eauto|].
  destruct (is_True (default JNull (m !! "active"))); [|eauto].
  cbn [negb]. destruct (_ =? _)%nat; [eauto|].
  destruct (cleaned_market_dict m
              (clob_token_ids_list (default JNull (m !! "clobTokenIds"))))
    as (c & -> & _).
  cbn [mbind result_bind mret result_ret]. eauto.
Qed.

(** The loop: with mappings only it appends the kept markets, in input
    order; anything else stops it. *)
Lemma pick_loop_dicts (body : json F → result (option (json F)))
    (raw cleaned : list (json F)) :
  (∀ m, ∃ r, body (JDict m) = Ok r) →
  Forall (λ x, ∃ m, x = JDict m) raw →
  pick_loop body raw cleaned
  = Ok (cleaned
        ++ omap (λ x, match body x with Ok r => r | Raise _ => None end) raw).
Proof.
  intros Hbody Hraw. revert cleaned.
  induction Hraw as [|x raw (m & ->) _ IH]; intros cleaned.
  - cbn. now rewrite app_nil_r.
  - cbn [pick_loop omap list_omap]. destruct (Hbody m) as ([c0|] & Hm);
      rewrite Hm; cbn [mbind result_bind]; rewrite IH; [|reflexivity].
    now rewrite <- app_assoc.
Qed.

Lemma pick_loop_raise (body : json F → result (option (json F)))
    (raw cleaned : list (json F)) :
  (∀ m, ∃ r, body (JDict m) = Ok r) →
  (∀ x, (∀ m, x ≠ JDict m) → body x = Raise AttributeError) →
  ¬ Forall (λ x, ∃ m, x = JDict m) raw →
  pick_loop body raw cleaned = Raise AttributeError.
Proof.
  intros Hbody Hnot. revert cleaned.
  induction raw as [|x raw IH]; intros cleaned Hraw.
  - now destruct Hraw.
  - cbn [pick_loop]. destruct x as [| | | | | |m];
      try (rewrite Hnot by discriminate; reflexivity).
    destruct (Hbody m) as (r & ->). cbn [mbind result_bind].
    apply IH. intros Hall. apply Hraw. constructor; [eauto|exact Hall].
Qed.

Lemma elem_of_kept (body : json F → result (option (json F)))
    (raw : list (json F)) (c : json F) :
  Forall (λ x, ∃ m, x = JDict m) raw →
  c ∈ omap (λ x, match body x with Ok r => r | Raise _ => None end) raw
  ↔ ∃ m, JDict m ∈ raw ∧ body (JDict m) = Ok (Some c).
Proof.
  intros Hraw. rewrite list_elem_of_omap. split.
  - intros (x & Hx & Hc). rewrite Forall_forall in Hraw.
    destruct (Hraw x Hx) as (m & ->). exists m. split; [exact Hx|].
    destruct (body (JDict m)) as [r|e]; [now subst r|discriminate Hc].
  - intros (m & Hm & Hc). exists (JDict m). split; [exact Hm|].
    now rewrite Hc.
Qed.

Lemma length_omap_le {A B : Type} (f : A → option B) (l : list A) :
  (length (omap f l) ≤ length l)%nat.
Proof.
  induction l as [|x l IH]; cbn; [lia|]. destruct (f x); cbn; lia.
Qed.

Lemma py_slice_to_prefix {A : Type} (l : list A) (n : Z) :
  ∃ rest, l = py_slice_to l n ++ rest.
Proof.
  unfold py_slice_to. destruct (n <? 0)%Z; eexists; symmetry; apply take_drop.
Qed.

Lemma Forall_dict_dec (raw : list (json F)) :
  Forall (λ x, ∃ m, x = JDict m) raw ∨ ¬ Forall (λ x, ∃ m, x = JDict m) raw.
Proof.
  induction raw as [|x raw [IH|IH]].
  - left. constructor.
  - destruct x as [| | | | | |m];
      try (right; intros Hall; apply Forall_cons in Hall as [[? ?] _];
           discriminate).
    left. constructor; [eauto|exact IH].
  - right. intros Hall. apply Forall_cons in Hall as [_ ?]. now apply IH.
Qed.

(** X14. [pick_top_markets] completes exactly when every raw market is a
    mapping and raises AttributeError otherwise.  When it completes with a
    non-negative [top_n] it returns at most [top_n] markets; every market
    returned is the normalised form of a raw market that has its order
    book enabled, is active, is not closed and has a non-empty token list
    (given as a list or as a string that decodes to one), with the tokens
    as strings; and when [top_n] is at least the number of raw markets,
    every such market is returned. *)
Theorem pick_top_markets_rule (raw : list (json F)) (top_n : Z) :
  ((∃ out, pick_top_markets raw top_n = Ok out)
   ↔ Forall (λ x, ∃ m, x = JDict m) raw)
  ∧ (∀ e, pick_top_markets raw top_n = Raise e → e = AttributeError)
  ∧ ∀ out, pick_top_markets raw top_n = Ok out →
      ((0 ≤ top_n)%Z → (length out ≤ Z.to_nat top_n)%nat)
      ∧ (∀ c, c ∈ out →
              ∃ m xs, JDict m ∈ raw ∧ tradeable m xs
                      ∧ cleaned_market (JDict m) (py_str <$> xs) = Ok c)
      ∧ ((Z.of_nat (length raw) ≤ top_n)%Z →
         ∀ m xs, JDict m ∈ raw → tradeable m xs →
                 ∃ c, cleaned_market (JDict m) (py_str <$> xs) = Ok c
                      ∧ c ∈ out).
Proof.
  unfold pick_top_markets.
  destruct (Forall_dict_dec raw) as [Hraw|Hraw].
  - rewrite (pick_loop_dicts _ raw [] pick_market_dict_ok Hraw).
    pose proof (elem_of_kept pick_market raw) as Hin.
    set (kept := omap _ raw) in *.
    assert (Hlen : (length kept ≤ length raw)%nat) by apply length_omap_le.
    cbn [app mbind result_bind mret result_ret]. split_and!.
    + split; [intros _; exact Hraw|eauto].
    + discriminate.
    + intros out [= <-].
      destruct (py_slice_to_prefix (sorted_reverse vol_key kept) top_n)
        as (rest & Hrest).
      split_and!.
      * intros Hn. unfold py_slice_to.
        destruct (Z.ltb_spec top_n 0) as [?|_]; [lia|].
        rewrite length_take. lia.
      * intros c Hc.
        assert (Hk : c ∈ kept).
        { rewrite <- (sorted_reverse_perm vol_key kept), Hrest.
          apply elem_of_app. now left. }
        apply Hin in Hk as (m & Hm & Hrun); [|exact Hraw].
        apply pick_market_Some in Hrun as (xs & Ht & Hcm). eauto.
      * intros Hn m xs Hm Ht.
        destruct (pick_market_tradeable m xs Ht) as (c & Hcm & Hrun).
        exists c. split; [exact Hcm|].
        unfold py_slice_to. destruct (Z.ltb_spec top_n 0) as [?|_]; [lia|].
        rewrite take_ge.
        -- rewrite (sorted_reverse_perm vol_key kept).
           apply Hin; [exact Hraw|eauto].
        -- rewrite (sorted_reverse_perm vol_key kept). lia.
  - rewrite (pick_loop_raise _ raw [] pick_market_dict_ok
               pick_market_not_dict Hraw).
    cbn [mbind result_bind]. split_and!.
    + split; [intros [out Hout]; discriminate Hout|intros ?; now destruct Hraw].
    + now intros e [= <-].
    + discriminate.
Qed.

End PickTop.

Section PickTopByVolume.
Context {F : Type} `{Number F} `{!NumberLaws F} `{!OrderLaws F}.
Context `{Runtime F} `{Decoder F}.

(** The normalised market has the volume of the raw one. *)
Lemma vol_key_cleaned_market (m : gmap string (json F))
    (toks : list string) (c : json F) :
  cleaned_market (JDict m) toks = Ok c → vol_key c = vol_key (JDict m).
Proof.
  destruct (cleaned_market_dict m toks) as (cm & -> & _ & Hvol & _).
  intros [= <-]. unfold vol_key. rewrite !dict_get_dict. now rewrite Hvol.
Qed.

(** X15. When no raw market has a NaN volume, the markets
    [pick_top_markets] returns are the first of the ranking it would
    return without a limit, and that ranking is by volume, largest first:
    no market returned has a smaller volume than one that follows it or
    than one left out. *)
Theorem pick_top_markets_by_volume (raw : list (json F)) (top_n : Z)
    (out : list (json F)) :
  Forall (λ x, is_number (vol_key x) = true) raw →
  pick_top_markets raw top_n = Ok out →
  ∃ rest,
    pick_top_markets raw (Z.of_nat (length raw)) = Ok (out ++ rest)
    ∧ StronglySorted (λ a b, vol_key b <=! vol_key a = true) (out ++ rest)
    ∧ ∀ a b, a ∈ out → b ∈ rest → vol_key b <=! vol_key a = true.
Proof.
  unfold pick_top_markets. intros Hnum Hrun.
  destruct (Forall_dict_dec raw) as [Hraw|Hraw].
  - rewrite (pick_loop_dicts _ raw [] pick_market_dict_ok Hraw) in *.
    pose proof (elem_of_kept pick_market raw) as Hin.
    set (kept := omap _ raw) in *.
    assert (Hlen : (length kept ≤ length raw)%nat) by apply length_omap_le.
    assert (Hkept : Forall (λ c, is_number (vol_key c) = true) kept).
    { apply Forall_forall. intros c Hc.
      apply Hin in Hc as (m & Hm & Hpick); [|exact Hraw].
      apply pick_market_Some in Hpick as (xs & _ & Hcm).
      rewrite (vol_key_cleaned_market _ _ _ Hcm).
      rewrite Forall_forall in Hnum. now apply Hnum. }
    cbn [app mbind result_bind mret result_ret] in *.
    injection Hrun as <-.
    destruct (py_slice_to_prefix (sorted_reverse vol_key kept) top_n)
      as (rest & Hrest).
    pose proof (sorted_reverse_StronglySorted vol_key kept Hkept) as Hss.
    exists rest. rewrite <- Hrest. split_and!.
    + f_equal. unfold py_slice_to.
      destruct (Z.ltb_spec (Z.of_nat (length raw)) 0) as [?|_]; [lia|].
      apply take_ge. rewrite (sorted_reverse_perm vol_key kept). lia.
    + exact Hss.
    + rewrite Hrest in Hss. apply StronglySorted_app in Hss as (Hall & _ & _).
      intros a b Ha Hb. now apply Hall.
  - rewrite (pick_loop_raise _ raw [] pick_market_dict_ok
               pick_market_not_dict Hraw) in Hrun.
    discriminate Hrun.
Qed.

End PickTopByVolume.

(** On the sample in binary64, with a limit of one, the market of volume 7
    comes back and the market of volume 5 is the one left out. *)
Lemma pick_top_markets_by_volume_sample :
  ∃ out rest,
    pick_top_markets (F := float) (H1 := sample_decoder)
      raw_markets_sample 1 = Ok out
    ∧ (λ c, getitem c "market_id") <$> out = [Ok (JStr "d")]
    ∧ (λ c, getitem c "market_id") <$> rest = [Ok (JStr "a")]
    ∧ (∀ a b, a ∈ out → b ∈ rest → vol_key b <=! vol_key a = true).
Proof.
  eexists.
  assert (Hr : pick_top_markets (F := float) (H1 := sample_decoder)
                 raw_markets_sample 1 = Ok _) by (vm_compute; reflexivity).
  assert (Hnum : Forall (λ x : json float, is_number (vol_key x) = true)
                   raw_markets_sample) by (repeat constructor).
  destruct (pick_top_markets_by_volume (H1 := sample_decoder) _ _ _ Hnum Hr)
    as (rest & Hfull & _ & Hle).
  exists rest. split; [exact Hr|]. split; [reflexivity|].
  split; [|exact Hle].
  vm_compute in Hfull. injection Hfull as <-. reflexivity.
Defined.

(* ================================================================== *)
(** * The two scripts keep the same markets *)

Section TwoScripts.
Context {F : Type} `{Number F} `{Runtime F} `{Decoder F}.

Lemma once_pick_market_not_dict (x : json F) :
  (∀ m, x ≠ JDict m) → Once.pick_market x = Raise AttributeError.
Proof. intros Hx. destruct x; try reflexivity. now destruct (Hx m). Qed.

Lemma once_pick_market_agrees (m : gmap string (json F)) :
  (∀ e, m !! "enableOrderBook" = Some e → truthy e = is_True e) →
  ∃ r, pick_market (JDict m) = Ok r
       ∧ Once.pick_market (JDict m) = Ok (without_flags <$> r).
Proof.
  intros He. unfold pick_market, Once.pick_market.
  rewrite !dict_get_dict. cbn [mbind result_bind].
  assert (Htest : truthy (default (JBool false) (m !! "enableOrderBook"))
                  = is_True (default JNull (m !! "enableOrderBook"))).
  { destruct (m !! "enableOrderBook") as [e|]; [now apply He|reflexivity]. }
  rewrite Htest.
  destruct (is_True (default JNull (m !! "enableOrderBook")));
    [|now exists None].
  destruct (is_True (default JNull (m !! "closed"))); [now exists None|].
  destruct (is_True (default JNull (m !! "active"))); [|now exists None].
  cbn [negb].
  assert (Htok : clob_token_ids_list (default JNull (m !! "clobTokenIds"))
                 = match safe_json_loads
                           (default JNull (m !! "clobTokenIds")) with
                   | JList xs => py_str <$> xs
                   | _ => []
                   end).
  { unfold clob_token_ids_list. now destruct (safe_json_loads _). }
  rewrite <- Htok.
  destruct (clob_token_ids_list _) as [|tok toks]; [now exists None|].
  cbn [length Nat.eqb]. eexists. split; reflexivity.
Qed.

Lemma once_pick_market_dict_ok (m : gmap string (json F)) :
  ∃ r, Once.pick_market (JDict m) = Ok r.
Proof.
  unfold Once.pick_market. rewrite !dict_get_dict. cbn [mbind result_bind].
  destruct (is_True (default JNull (m !! "enableOrderBook")));
    [|eauto].
  destruct (is_True (default JNull (m !! "closed"))); [eauto|].
  destruct (is_True (default JNull (m !! "active"))); [|eauto].
  cbn [negb].
  destruct (match safe_json_loads _ with JList xs => _ | _ => _ end);
    [eauto|]. eexists. reflexivity.
Qed.

Lemma vol_key_without_flags (c : json F) :
  vol_key (without_flags c) = vol_key c.
Proof.
  destruct c as [| | | | | |mc]; try reflexivity.
  unfold vol_key, without_flags. rewrite !dict_get_dict. cbn [foldr].
  now rewrite !lookup_delete_ne by discriminate.
Qed.

Lemma sorted_fmap_key {A : Type} (f : A → A) (key : A → F) (l : list A) :
  (∀ a, key (f a) = key a) →
  sorted key (f <$> l) = f <$> sorted key l.
Proof.
  intros Hkey. unfold sorted.
  induction l as [|x l IH]; cbn [foldr fmap list_fmap]; [reflexivity|].
  fold (@fmap list _ _ _ f l). rewrite IH.
  generalize (foldr (insert_by key) [] l). intros k.
  induction k as [|y k IHk]; cbn [insert_by fmap list_fmap];
    [reflexivity|].
  rewrite !Hkey. destruct (key y <! key x); cbn [fmap list_fmap];
    [|reflexivity].
  fold (@fmap list _ _ _ f k). fold (@fmap list _ _ _ f (insert_by key x k)).
  now rewrite IHk.
Qed.

Lemma sorted_reverse_fmap_key {A : Type} (f : A → A) (key : A → F)
    (l : list A) :
  (∀ a, key (f a) = key a) →
  sorted_reverse key (f <$> l) = f <$> sorted_reverse key l.
Proof.
  intros Hkey. unfold sorted_reverse. rewrite !rev_reverse.
  now rewrite <- fmap_reverse, sorted_fmap_key, fmap_reverse.
Qed.

Lemma py_slice_to_fmap {A B : Type} (f : A → B) (l : list A) (n : Z) :
  py_slice_to (f <$> l) n = f <$> py_slice_to l n.
Proof.
  unfold py_slice_to. rewrite length_fmap.
  destruct (n <? 0)%Z; now rewrite fmap_take.
Qed.

(** X16. On raw markets whose [enableOrderBook], where present, is a
    boolean, null or any other value that is true only when it is [True],
    the two scripts keep the same markets: [pick_top_markets] of the
    one-shot script raises exactly when that of the snapshot script does,
    and otherwise returns the same markets in the same order, each
    without its five fields startDate, endDate, active, closed and
    enableOrderBook. *)
Theorem pick_top_markets_once_agrees (raw : list (json F)) (top_n : Z) :
  Forall (λ x, ∀ e, getitem x "enableOrderBook" = Ok e →
                    truthy e = is_True e) raw →
  match pick_top_markets raw top_n with
  | Ok out => Once.pick_top_markets raw top_n = Ok (without_flags <$> out)
  | Raise e => Once.pick_top_markets raw top_n = Raise e
  end.
Proof.
  intros Hflag. unfold pick_top_markets, Once.pick_top_markets.
  destruct (Forall_dict_dec raw) as [Hraw|Hraw].
  - rewrite (pick_loop_dicts _ raw [] pick_market_dict_ok Hraw).
    rewrite (pick_loop_dicts _ raw [] once_pick_market_dict_ok Hraw).
    cbn [app mbind result_bind mret result_ret]. f_equal.
    rewrite <- py_slice_to_fmap.
    rewrite <- (sorted_reverse_fmap_key _ _ _ vol_key_without_flags).
    do 2 f_equal.
    induction Hraw as [|x raw (m & ->) _ IH]; [reflexivity|].
    apply Forall_cons in Hflag as [Hm Hflag].
    cbn [omap list_omap].
    destruct (once_pick_market_agrees m) as (r & -> & ->).
    { intros e He. apply Hm. cbn [getitem]. now rewrite He. }
    fold (@omap list _ _ _
            (λ x, match Once.pick_market x with
                  | Ok r => r
                  | Raise _ => None
                  end) raw).
    fold (@omap list _ _ _
            (λ x, match pick_market x with Ok r => r | Raise _ => None end)
            raw).
    rewrite (IH Hflag). now destruct r.
  - rewrite (pick_loop_raise _ raw [] pick_market_dict_ok
               pick_market_not_dict Hraw).
    now rewrite (pick_loop_raise _ raw [] once_pick_market_dict_ok
                   once_pick_market_not_dict Hraw).
Qed.

End TwoScripts.

(** On the sample both scripts keep the market of volume 7. *)
Lemma pick_top_markets_once_agrees_sample :
  ∃ out,
    pick_top_markets (H0 := exact_runtime) (H1 := sample_decoder)
      raw_markets_sample 1 = Ok out
    ∧ (λ c, getitem c "market_id") <$> out = [Ok (JStr "d")]
    ∧ Once.pick_top_markets (H0 := exact_runtime) (H1 := sample_decoder)
        raw_markets_sample 1 = Ok (without_flags <$> out).
Proof.
  eexists.
  assert (Hr : pick_top_markets (H0 := exact_runtime) (H1 := sample_decoder)
                 raw_markets_sample 1 = Ok _) by (vm_compute; reflexivity).
  split; [exact Hr|]. split; [reflexivity|].
  pose proof (pick_top_markets_once_agrees (H0 := exact_runtime)
                (H1 := sample_decoder) raw_markets_sample 1) as Hx.
  rewrite Hr in Hx. apply Hx.
  repeat constructor; intros e He; vm_compute in He; injection He as <-;
    reflexivity.
Defined.

(** A market whose [enableOrderBook] is the number 1 is kept by the
    snapshot script and dropped by the one-shot script. *)
Lemma pick_top_markets_once_differs :
  let m : json Qc :=
    JDict {[ "enableOrderBook" := JInt 1; "active" := JBool true;
             "clobTokenIds" := JList [JStr "7"] ]} in
  (∃ c, pick_top_markets (H0 := exact_runtime) (H1 := sample_decoder) [m] 1
        = Ok [c])
  ∧ Once.pick_top_markets (H0 := exact_runtime) (H1 := sample_decoder) [m] 1
    = Ok [].
Proof. cbv zeta. split; [eexists|]; vm_compute; reflexivity. Qed.

(* ================================================================== *)
(** * What is asked of the order-book service *)

Section FetchRequests.
Context {F W E : Type}.
Variable post : list (json F) → W → (E + json F) * W.
Variable sleep : W → W.

(** The loop posts the batches one by one, in order, and adds the books of
    each response; the first request that fails is the last one made and
    its exception is the outcome.  Keeping the log changes nothing
    else. *)
Lemma fetch_loop_recording (batches : list (list string))
    (out : list (json F)) (log : list (list (json F) * (E + json F)))
    (w : W) :
  ∃ r log' w' (sent : list (list string * json F)),
    fetch_loop (recording_post post) (recording_sleep sleep) batches out
      (log, w) = (r, (log', w'))
    ∧ fetch_loop post sleep batches out w = (r, w')
    ∧ sent.*1 `prefix_of` batches
    ∧ match r with
      | inr res =>
          sent.*1 = batches
          ∧ log' = log ++ ((λ s, (payload s.1, inr s.2)) <$> sent)
          ∧ res = out ++ (sent.*2 ≫= books_of)
      | inl err =>
          ∃ batch e,
            err = RequestError e
            ∧ (sent.*1 ++ [batch]) `prefix_of` batches
            ∧ log' = log ++ ((λ s, (payload s.1, inr s.2)) <$> sent)
                         ++ [(payload batch, inl e)]
      end.
Proof.
  revert out log w. induction batches as [|batch rest IH]; intros out log w.
  - exists (inr out), log, w, []. cbn. rewrite !app_nil_r.
    split_and!; reflexivity.
  - cbn [fetch_loop]. unfold recording_post at 1. cbn [fst snd].
    destruct (post (payload batch) w) as [[e|data] w1].
    + exists (inl (RequestError e)), (log ++ [(payload batch, inl e)]), w1, [].
      split_and!; try reflexivity.
      * apply prefix_nil.
      * exists batch, e. split_and!; [reflexivity| |reflexivity].
        now exists rest.
    + unfold recording_sleep at 1. cbn [fst snd].
      destruct (IH (match data with
                    | JList items => out ++ items
                    | _ => out ++ [data]
                    end) (log ++ [(payload batch, inr data)]) (sleep w1))
        as (r & log' & w' & sent & Hrec & Hrun & Hpre & Hr).
      exists r, log', w', ((batch, data) :: sent). split_and!.
      * exact Hrec.
      * exact Hrun.
      * rewrite fmap_cons. now apply prefix_cons.
      * assert (Hout : (match data with
                        | JList items => out ++ items
                        | _ => out ++ [data]
                        end) = out ++ books_of data)
          by (now destruct data).
        destruct r as [err|res].
        -- destruct Hr as (b & e & -> & Hb & ->). exists b, e.
           split_and!; [reflexivity| |].
           ++ rewrite fmap_cons. cbn [app]. now apply prefix_cons.
           ++ rewrite fmap_cons, <- !app_assoc. reflexivity.
        -- destruct Hr as (Hall & -> & ->). split_and!.
           ++ rewrite fmap_cons. now f_equal.
           ++ rewrite fmap_cons, <- app_assoc. reflexivity.
           ++ rewrite Hout, fmap_cons, <- app_assoc. reflexivity.
Qed.

Lemma payload_concat (batches : list (list string)) :
  concat (payload (F := F) <$> batches) = payload (concat batches).
Proof.
  unfold payload. induction batches as [|b bs IH]; [reflexivity|].
  cbn [fmap list_fmap concat]. rewrite fmap_app. f_equal. exact IH.
Qed.

Lemma payload_length (batch : list string) :
  length (payload (F := F) batch) = length batch.
Proof. unfold payload. apply length_fmap. Qed.

(** X17. What [fetch_orderbooks_bulk] asks of the service, read off a log
    of the payloads posted and of what came back (keeping the log does not
    change the result or the final state).  A batch size of zero raises
    ValueError and a negative one returns no book, both without any
    request.  With a positive batch size every payload holds at least one
    and at most [batch_size] tokens and, put end to end, the payloads are
    the first tokens of [token_ids], in order and each once.  When the
    call returns, every request was answered, the payloads are all of
    [token_ids] and the books returned are those of the responses, in
    order.  When a request fails, it is the last one made, every request
    before it was answered, and the call raises its exception. *)
Theorem fetch_orderbooks_bulk_requests (token_ids : list string)
    (batch_size : Z) (w w' : W)
    (log : list (list (json F) * (E + json F)))
    (r : fetch_error (E := E) + list (json F)) :
  fetch_orderbooks_bulk (recording_post post) (recording_sleep sleep)
    token_ids batch_size ([], w) = (r, (log, w')) →
  fetch_orderbooks_bulk post sleep token_ids batch_size w = (r, w')
  ∧ match (batch_size ?= 0)%Z with
    | Eq => r = inl (ChunkError ValueError) ∧ log = []
    | Lt => r = inr [] ∧ log = []
    | Gt =>
        Forall (λ p, (0 < length p ≤ Z.to_nat batch_size)%nat) log.*1
        ∧ (∃ k, concat log.*1 = payload (take k token_ids))
        ∧ match r with
          | inr out =>
              concat log.*1 = payload token_ids
              ∧ ∃ datas, log.*2 = inr <$> datas
                         ∧ out = datas ≫= books_of
          | inl err =>
              ∃ front p e datas,
                log = front ++ [(p, inl e)]
                ∧ front.*2 = inr <$> datas
                ∧ err = RequestError e
          end
    end.
Proof.
  unfold fetch_orderbooks_bulk.
  destruct (Z.compare_spec batch_size 0) as [->|Hneg|Hpos].
  - cbn. intros [= <- <- <-]. auto.
  - assert (Hc : chunked token_ids batch_size = Ok []).
    { unfold chunked, py_range.
      destruct (Z.eqb_spec batch_size 0) as [?|_]; [lia|].
      destruct (Z.ltb_spec batch_size 0) as [_|?]; [reflexivity|lia]. }
    rewrite Hc. cbn. intros [= <- <- <-]. auto.
  - remember (Z.to_nat batch_size) as n eqn:Hsize.
    assert (Hn : (0 < n)%nat) by lia.
    assert (batch_size = Z.of_nat n) as -> by lia. clear Hsize Hpos.
    destruct (chunked_batches token_ids n Hn) as (cs & -> & Hcat & Hlen).
    destruct (fetch_loop_recording cs [] [] w)
      as (r0 & log0 & w0 & sent & Hrec & Hrun & Hpre & Hr).
    rewrite Hrec, Hrun. intros [= <- <- <-]. split; [reflexivity|].
    set (entry := λ s : list string * json F,
                    (payload (F := F) s.1, inr (A := E) s.2)) in *.
    assert (Hsent : (entry <$> sent).*1 = payload (F := F) <$> sent.*1).
    { rewrite <- !list_fmap_compose. now apply list_fmap_ext. }
    assert (Hans : (entry <$> sent).*2 = inr <$> sent.*2).
    { rewrite <- !list_fmap_compose. now apply list_fmap_ext. }
    destruct r0 as [err|res].
    + destruct Hr as (batch & e & -> & Hb & ->). cbn [app].
      rewrite fmap_app, Hsent. cbn [fmap list_fmap fst].
      change [payload batch] with (payload (F := F) <$> [batch]).
      rewrite <- fmap_app. destruct Hb as [rest ->].
      apply Forall_app in Hlen as [Hlen _]. split_and!.
      * apply Forall_fmap. eapply Forall_impl; [exact Hlen|].
        intros b Hb. cbn. now rewrite payload_length.
      * rewrite payload_concat.
        exists (length (concat (sent.*1 ++ [batch]))).
        rewrite <- Hcat, (concat_app (sent.*1 ++ [batch]) rest).
        now rewrite take_app_length.
      * exists (entry <$> sent), (payload batch), e, sent.*2.
        split_and!; [reflexivity|exact Hans|reflexivity].
    + destruct Hr as (Hall & -> & ->). cbn [app].
      rewrite Hsent, Hall. split_and!.
      * apply Forall_fmap. eapply Forall_impl; [exact Hlen|].
        intros b Hb. cbn. now rewrite payload_length.
      * rewrite payload_concat. exists (length (concat cs)).
        rewrite Hcat. now rewrite firstn_all.
      * now rewrite payload_concat, Hcat.
      * exists sent.*2. split; [exact Hans|reflexivity].
Qed.

End FetchRequests.

(** Three tokens in batches of two: two requests, of two tokens and of
    one, both answered, and the three books come back. *)
Lemma fetch_orderbooks_bulk_requests_sample :
  let run := fetch_orderbooks_bulk (recording_post echo_post)
               (recording_sleep id) ["1"; "2"; "3"] 2 ([], 0%nat) in
  run = (inr (payload ["1"; "2"; "3"]),
         ([(payload ["1"; "2"], inr (JList (payload ["1"; "2"])));
           (payload ["3"], inr (JList (payload ["3"])))], 2%nat))
  ∧ fetch_orderbooks_bulk echo_post id ["1"; "2"; "3"] 2 0%nat
    = (inr (payload ["1"; "2"; "3"]), 2%nat).
Proof.
  cbv zeta.
  assert (Hr : fetch_orderbooks_bulk (recording_post echo_post)
                 (recording_sleep id) ["1"; "2"; "3"] 2 ([], 0%nat)
               = (inr (payload ["1"; "2"; "3"]),
                  ([(payload ["1"; "2"], inr (JList (payload ["1"; "2"])));
                    (payload ["3"], inr (JList (payload ["3"])))], 2%nat)))
    by reflexivity.
  split; [exact Hr|].
  exact (proj1 (fetch_orderbooks_bulk_requests echo_post id _ _ _ _ _ _ Hr)).
Defined.

(* ================================================================== *)
(** * The order of the levels in a book *)

Section OrderOfLevels.
Context {F : Type} `{Number F} `{!NumberLaws F} `{!OrderLaws F}.
Implicit Types (asks ls : list (Level F)).

Lemma ForallOrdPairs_elem_of {A : Type} (R : relation A) (l : list A)
    (x y : A) :
  ForallOrdPairs R l → x ∈ l → y ∈ l → x = y ∨ R x y ∨ R y x.
Proof.
  induction 1 as [|a l Ha Hl IH]; [now intros ?%elem_of_nil|].
  rewrite List.Forall_forall in Ha.
  intros [->|Hx]%elem_of_cons [->|Hy]%elem_of_cons.
  - now left.
  - right. left. apply Ha. now apply list_elem_of_In.
  - right. right. apply Ha. now apply list_elem_of_In.
  - now apply IH.
Qed.

(** With no NaN price and no two prices that compare equal, sorting
    forgets the input order. *)
Lemma sorted_perm_eq ls ls' :
  ls ≡ₚ ls' →
  Forall (λ l, is_number (price l) = true) ls →
  ForallOrdPairs (λ a b, same_rank (price a) (price b) = false) ls →
  sorted price ls = sorted price ls'.
Proof.
  intros Hp Hnum Hdiff.
  apply (StronglySorted_unique_strong
           (λ a b, price a <=! price b = true)).
  - intros x1 x2 H1 H2 H12 H21.
    rewrite (sorted_perm price ls) in H1.
    rewrite (sorted_perm price ls'), <- Hp in H2.
    destruct (ForallOrdPairs_elem_of _ ls x1 x2 Hdiff H1 H2)
      as [?|[Hne|Hne]]; [assumption| |];
      unfold same_rank in Hne; rewrite H12, H21 in Hne; discriminate Hne.
  - now apply sorted_StronglySorted.
  - apply sorted_StronglySorted. now rewrite <- Hp.
  - now rewrite !(sorted_perm price).
Qed.

(** X20. When no ask has a NaN price and no two asks have prices that
    compare equal, [buy_avg_fill_price] does not depend on the order in
    which the asks are given: permuting them leaves the levels it walks,
    and so its result for every budget, as they were. *)
Theorem buy_avg_fill_price_perm asks asks' :
  asks ≡ₚ asks' →
  Forall (λ l, is_number (price l) = true) asks →
  ForallOrdPairs (λ a b, same_rank (price a) (price b) = false) asks →
  sorted price asks = sorted price asks'
  ∧ ∀ B, buy_avg_fill_price asks B = buy_avg_fill_price asks' B.
Proof.
  intros Hp Hnum Hdiff.
  pose proof (sorted_perm_eq asks asks' Hp Hnum Hdiff) as Hs.
  split; [exact Hs|]. intros B. rewrite !buy_avg_fill_price_unfold, Hs.
  replace (no_walk asks' B) with (no_walk asks B); [reflexivity|].
  unfold no_walk. f_equal. destruct asks, asks'; try reflexivity.
  - now apply Permutation_nil_cons in Hp.
  - symmetry in Hp. now apply Permutation_nil_cons in Hp.
Qed.

End OrderOfLevels.

(** The scenario's asks in both orders fill at one price, in binary64. *)
Lemma buy_avg_fill_price_perm_sample :
  buy_avg_fill_price scenario_asks (of_Z 50)
  = buy_avg_fill_price (reverse scenario_asks) (of_Z 50)
  ∧ ∃ p, buy_avg_fill_price scenario_asks (of_Z 50) = Ok (Some p).
Proof.
  split; [|eexists; vm_compute; reflexivity].
  apply (buy_avg_fill_price_perm scenario_asks (reverse scenario_asks)).
  - apply perm_swap.
  - repeat constructor.
  - repeat constructor.
Defined.

(** With two asks at one price the order can matter: for a budget of 10
    the walk stops after the large level at 2.00 when it comes first, and
    takes both when the tiny one does. *)
Lemma buy_avg_fill_price_order_matters :
  asks_large_first ≡ₚ asks_tiny_first
  ∧ buy_avg_fill_price asks_large_first (of_Z 10)
    ≠ buy_avg_fill_price asks_tiny_first (of_Z 10).
Proof.
  split; [apply perm_skip, perm_swap|].
  vm_compute. intros Heq. discriminate Heq.
Qed.
